(** * lego-openscad: batch STL generation for model train tracks

    A shallow embedding of [batch_generate.py] and [generate_stls.py].

    - [Py]: the fragment of Python the two scripts rely on: exceptions,
      binary64 floats (through the IEEE 754 specification [SpecFloat] of the
      Standard Library), formatted text, and a state-and-exception monad
      over a world that records subprocess calls and console output.
    - [batch_generate]: the radius table, the angle table, the diverse
      curve and the outer batch driver.
    - [generate_stls]: the inner generator that calls OpenSCAD once per
      configuration. *)

From Stdlib Require Import ZArith QArith Lia Bool List Ascii String.
From Stdlib Require Import Floats.SpecFloat.
From stdpp Require Import base option list gmap strings.

Local Open Scope Z_scope.

(* ===================================================================== *)
(** * Python semantics used by the scripts                                *)
(* ===================================================================== *)

Module Py.

(** Exceptions that can reach the code under study. *)
Inductive exn :=
| OverflowError          (* int too large to convert to float; int(inf) *)
| ValueError (msg : string)
| KeyError (key : Z)
| TimeoutExpired         (* subprocess.TimeoutExpired *)
| OSError (msg : string) (* any other Exception raised by a system call *)
| UnicodeDecodeError (msg : string)  (* captured output that is not text *)
| SystemExit (code : Z). (* sys.exit(code) *)

(** Pure computations that may raise. *)
Inductive result (A : Type) :=
| Ok (a : A)
| Raise (e : exn).
Arguments Ok {A} a.
Arguments Raise {A} e.

#[global] Instance result_ret : MRet result := fun A a => Ok a.
#[global] Instance result_bind : MBind result := fun A B k r =>
  match r with
  | Ok a => k a
  | Raise e => Raise e
  end.

(** [except Exception] catches everything but [SystemExit]. *)
Definition is_Exception (e : exn) : bool :=
  match e with
  | SystemExit _ => false
  | _ => true
  end.

(** ** Floats: IEEE 754 binary64 *)

Definition prec : Z := 53.
Definition emax : Z := 1024.

Abbreviation float := spec_float.

(** A float literal whose decimal expansion is the dyadic number
    [m * 2^e]; the parser rounds to nearest, which is exact here. *)
Definition float_lit (m e : Z) : float := binary_normalize prec emax m e false.

(** [float(n)] for a Python int: round to nearest, ties to even;
    OverflowError when the rounded value leaves the finite range. *)
Definition float_of_int (n : Z) : result float :=
  match binary_normalize prec emax n 0 false with
  | S754_infinity _ => Raise OverflowError
  | f => Ok f
  end.

(** [x * y] and [x + y] on floats never raise. *)
Definition float_mul (x y : float) : float := SFmul prec emax x y.
Definition float_add (x y : float) : float := SFadd prec emax x y.

(** [x * n] and [x + n] with [x] a float and [n] an int convert [n]
    first. *)
Definition float_mul_int (x : float) (n : Z) : result float :=
  y ← float_of_int n; mret (float_mul x y).

Definition float_add_int (x : float) (n : Z) : result float :=
  y ← float_of_int n; mret (float_add x y).

(** [int(x)] truncates toward zero; it raises on infinities and NaN. *)
Definition int_of_float (x : float) : result Z :=
  match x with
  | S754_zero _ => Ok 0
  | S754_infinity _ => Raise OverflowError
  | S754_nan => Raise (ValueError "cannot convert float NaN to integer")
  | S754_finite s m e => Ok (cond_Zopp s (Z.shiftl (Z.pos m) e))
  end.

(** A number as stored in a table: the source mixes int and float
    literals. *)
Inductive num :=
| Int (z : Z)
| Float (f : float).

(** ** Formatted text

    An f-string is kept as the list of its fragments; rendering numbers
    to decimal digits is left to the console. *)
#[local] Unset Elimination Schemes.
Inductive frag :=
| Lit (s : string)
| FInt (z : Z)                     (* {z}: an int *)
| FNum (x : num)                   (* {x}: str of a number *)
| FFixed (digits : nat) (x : num)  (* {x:.Nf} *)
| FLjust (width : nat) (f : frag)  (* {f:<W} *)
| FOpt (o : option string)         (* a captured stream, or None *)
| FExn (e : exn)                   (* {e}: the message of an exception *)
| FResolve (p : list frag)         (* Path.resolve() *)
| FJoin (sep : string) (items : list (list frag)).  (* sep.join(items) *)
#[local] Set Elimination Schemes.

Abbreviation text := (list frag).

Definition nl : string := String (Ascii.ascii_of_nat 10) EmptyString.

(** [s * n] on strings. *)
Fixpoint str_mul (s : string) (n : nat) : string :=
  match n with
  | O => EmptyString
  | S n' => String.append s (str_mul s n')
  end.

(** [c * n] as a fragment, a horizontal rule. *)
Definition rule (c : string) (n : nat) : frag := Lit (str_mul c n).

(** [pathlib.Path]: [Path s] is a path object whose string form is [s],
    which pathlib keeps normalised (["."] for the current directory, no
    trailing slash but on a root); [Child parent name] is [parent / name]
    for a relative file name [name]. *)
Inductive path :=
| Path (s : string)
| Child (parent : path) (name : text).

Fixpoint ends_with_slash (s : string) : bool :=
  match s with
  | EmptyString => false
  | String c EmptyString => Ascii.eqb c "/"%char
  | String _ s' => ends_with_slash s'
  end.

(** The string form of [parent / name]: the current directory is dropped,
    and no slash is added after a root. *)
Definition joinpath (parent name : text) : text :=
  match parent with
  | [Lit s] =>
      if String.eqb s "." then name
      else if ends_with_slash s then parent ++ name
      else parent ++ [Lit "/"] ++ name
  | _ => parent ++ [Lit "/"] ++ name
  end.

(** [str(p)] *)
Fixpoint str_path (p : path) : text :=
  match p with
  | Path s => [Lit s]
  | Child parent name => joinpath (str_path parent) name
  end.

(** The text after the last slash. *)
Fixpoint basename (acc s : string) : string :=
  match s with
  | EmptyString => acc
  | String c s' =>
      if Ascii.eqb c "/"%char then basename EmptyString s'
      else basename (String.append acc (String c EmptyString)) s'
  end.

(** [p.name]: the last component, empty for the current directory and
    for a root. *)
Definition path_name (p : path) : text :=
  match p with
  | Path s => [Lit (if String.eqb s "." then EmptyString else basename EmptyString s)]
  | Child _ name => name
  end.

(** ** Subprocesses and the console *)

(** The command handed to [subprocess.run]: an argument vector, or one
    string for the shell. *)
Inductive command :=
| Argv (args : list text)
| Shell (cmd : text).

(** What a child wrote on one of its output streams: bytes that the
    codec of the locale decodes to the text [s], or bytes that it
    rejects, with the message of the codec. *)
Inductive stream :=
| Text (s : string)
| Undecodable (reason : string).

Coercion Text : string >-> stream.

Definition is_text (s : stream) : bool :=
  match s with
  | Text _ => true
  | Undecodable _ => false
  end.

(** What a child process does, as decided by the environment: it exits
    after some seconds with a return code and its two output streams, or
    it cannot be started at all. *)
Inductive behaviour :=
| Exits (returncode : Z) (out err : stream) (seconds : Z)
| LaunchFails (msg : string).

Definition char_cr : ascii := Ascii.ascii_of_nat 13.
Definition char_lf : ascii := Ascii.ascii_of_nat 10.

(** [s.replace("\r\n", "\n")] *)
Fixpoint replace_crlf (s : string) : string :=
  match s with
  | EmptyString => EmptyString
  | String c s' =>
      match s' with
      | String c' s'' =>
          if Ascii.eqb c char_cr && Ascii.eqb c' char_lf
          then String char_lf (replace_crlf s'')
          else String c (replace_crlf s')
      | EmptyString => String c EmptyString
      end
  end.

(** [s.replace("\r", "\n")] *)
Fixpoint replace_cr (s : string) : string :=
  match s with
  | EmptyString => EmptyString
  | String c s' =>
      String (if Ascii.eqb c char_cr then char_lf else c) (replace_cr s')
  end.

(** What [text=True] does to a captured stream once the child has ended:
    the bytes are decoded, which raises when they are not text, and the
    line ends of the text are translated to ["\n"]. *)
Definition translate_newlines (s : string) : string :=
  replace_cr (replace_crlf s).

Definition decode (s : stream) : result string :=
  match s with
  | Text t => Ok (translate_newlines t)
  | Undecodable reason => Raise (UnicodeDecodeError reason)
  end.

(** [subprocess.CompletedProcess]; the streams are [None] unless
    captured. *)
Record CompletedProcess := {
  returncode : Z;
  cp_stdout : option string;
  cp_stderr : option string;
}.

(** One write to a console stream. *)
Inductive output :=
| Line (t : text)            (* print(t) *)
| Partial (t : text)         (* print(t, end="") *)
| Inherited (s : stream).    (* written by a child that shares the stream *)

(** The state a script acts on: the subprocess calls made so far with
    what each child did, the directories created, and the two console
    streams.  Writing to the console and creating a directory are taken
    to succeed: a console that refuses a write and an output directory
    that cannot be created are outside the runs described here. *)
Record world := {
  calls : list (command * behaviour);
  dirs : list path;
  stdout : list output;
  stderr : list output;
}.

Definition empty_world : world :=
  {| calls := []; dirs := []; stdout := []; stderr := [] |}.

(** Statements: state passing with exceptions. *)
Definition M (A : Type) : Type := world -> result A * world.

#[global] Instance M_ret : MRet M := fun A a w => (Ok a, w).
#[global] Instance M_bind : MBind M := fun A B k m w =>
  match m w with
  | (Ok a, w') => k a w'
  | (Raise e, w') => (Raise e, w')
  end.

Definition raise {A} (e : exn) : M A := fun w => (Raise e, w).

Definition lift {A} (r : result A) : M A := fun w => (r, w).

(** [try: body / except ...: handler]; [handler e = None] when no clause
    matches [e]. *)
Definition try_except {A} (body : M A) (handler : exn -> option (M A)) : M A :=
  fun w =>
    match body w with
    | (Ok a, w') => (Ok a, w')
    | (Raise e, w') =>
        match handler e with
        | Some h => h w'
        | None => (Raise e, w')
        end
    end.

Definition write_stdout (o : output) : M unit := fun w =>
  (Ok tt, {| calls := calls w; dirs := dirs w;
             stdout := stdout w ++ [o]; stderr := stderr w |}).

Definition write_stderr (o : output) : M unit := fun w =>
  (Ok tt, {| calls := calls w; dirs := dirs w;
             stdout := stdout w; stderr := stderr w ++ [o] |}).

Definition print (t : text) : M unit := write_stdout (Line t).
Definition print_noend (t : text) : M unit := write_stdout (Partial t).
Definition eprint (t : text) : M unit := write_stderr (Line t).

(** [p.mkdir(parents=True, exist_ok=True)] on a path that is a directory
    already or can be created as one; the call is recorded. *)
Definition mkdir (p : path) : M unit := fun w =>
  (Ok tt, {| calls := calls w; dirs := dirs w ++ [p];
             stdout := stdout w; stderr := stderr w |}).

(** [d[k]] on a dict with int keys. *)
Definition getitem {V} (d : gmap Z V) (k : Z) : M V :=
  match d !! k with
  | Some v => mret v
  | None => raise (KeyError k)
  end.

(** [for x in l: s = body x s] *)
Fixpoint for_fold {A S} (l : list A) (body : A -> S -> M S) (s : S) : M S :=
  match l with
  | [] => mret s
  | x :: rest => s' ← body x s; for_fold rest body s'
  end.

(** The exit status of the process once the script has run. *)
Definition exit_status {A} (r : result A) : Z :=
  match r with
  | Ok _ => 0
  | Raise (SystemExit code) => code
  | Raise _ => 1
  end.

Section Subprocess.

(** The environment: what the next child does, given the calls made so
    far and the command. *)
Variable spawn : list (command * behaviour) -> command -> behaviour.

(** [subprocess.run(cmd, capture_output=..., text=True, timeout=...)]:
    the call is recorded.  A child that cannot be started raises at once;
    one that runs past the timeout is killed and [TimeoutExpired] is
    raised.  When the child has ended in time, captured streams are
    decoded, standard output first, and an undecodable stream raises
    [UnicodeDecodeError]; a child whose streams are not captured writes
    to the console of the caller and nothing is decoded (what a child
    wrote before it was killed on a timeout is left out). *)
Definition subprocess_run (cmd : command) (capture_output : bool)
    (timeout : option Z) : M CompletedProcess := fun w =>
  let b := spawn (calls w) cmd in
  let w' := {| calls := calls w ++ [(cmd, b)]; dirs := dirs w;
               stdout := stdout w; stderr := stderr w |} in
  match b with
  | LaunchFails msg => (Raise (OSError msg), w')
  | Exits rc out err seconds =>
      if match timeout with Some t => t <? seconds | None => false end
      then (Raise TimeoutExpired, w')
      else if capture_output
      then
        (o ← lift (decode out);
         e ← lift (decode err);
         mret {| returncode := rc; cp_stdout := Some o; cp_stderr := Some e |}) w'
      else
        (write_stdout (Inherited out);;
         write_stderr (Inherited err);;
         mret {| returncode := rc; cp_stdout := None; cp_stderr := None |}) w'
  end.

End Subprocess.

(** The return code that a capturing call without timeout reports; there
    is none when the call raises, because the child cannot be started or
    because its output is not text. *)
Definition exit_code (b : behaviour) : option Z :=
  match b with
  | Exits rc (Text _) (Text _) _ => Some rc
  | _ => None
  end.

(** A call succeeded: the child exited with code zero within the
    timeout and, when its streams were captured, they were text. *)
Definition run_ok (capture_output : bool) (timeout : Z) (b : behaviour) : bool :=
  match b with
  | Exits rc out err seconds =>
      negb (timeout <? seconds) && (rc =? 0) &&
      (negb capture_output || (is_text out && is_text err))
  | LaunchFails _ => false
  end.

(** The same for a call that captures the streams. *)
Definition job_ok (timeout : Z) (b : behaviour) : bool := run_ok true timeout b.

End Py.

Import Py.

(* ===================================================================== *)
(** * batch_generate.py                                                   *)
(* ===================================================================== *)

Module batch_generate.

(** Standard radius range (in studs). *)
Definition RADII : list Z :=
  [24; 32; 40; 48; 56; 64; 72; 80; 88; 96; 104; 112; 120].

Definition f22_5 : float := float_lit 45 (-1).   (* 22.5 *)
Definition f11_25 : float := float_lit 45 (-2).  (* 11.25 *)

(** The dict literal [ANGLE_MAP]. *)
Definition ANGLE_MAP : gmap Z num :=
  list_to_map
    [ (24, Float f22_5); (32, Float f22_5);
      (40, Int 18); (48, Int 18); (56, Int 18);
      (64, Int 15); (72, Int 15); (80, Int 15); (88, Int 15);
      (96, Float f11_25); (104, Float f11_25); (112, Float f11_25);
      (120, Float f11_25) ].

Definition a : float := float_lit 13 (-4).       (* 0.8125 *)
Definition vertex : Z := 64.
Definition minimum : Z := 500.
Definition maximum : Z := 1800.

(** [diverse = a * (radius - vertex) ** 2 + minimum;
     return min(int(diverse), maximum)] *)
Definition calculate_diverse (radius : Z) : result Z :=
  t ← float_mul_int a ((radius - vertex) ^ 2);
  diverse ← float_add_int t minimum;
  i ← int_of_float diverse;
  mret (Z.min i maximum).

(** The dict comprehension [{radius: calculate_diverse(radius) for radius
    in radii}]: keys are inserted in list order; an exception in any call
    aborts the construction. *)
Fixpoint diverse_map_of (radii : list Z) (acc : gmap Z Z) : result (gmap Z Z) :=
  match radii with
  | [] => mret acc
  | radius :: rest =>
      d ← calculate_diverse radius;
      diverse_map_of rest (<[radius := d]> acc)
  end.

Definition DIVERSE_MAP : result (gmap Z Z) := diverse_map_of RADII ∅.

Section Driver.

Variable spawn : list (command * behaviour) -> command -> behaviour.

(** The command line of the inner generator for one radius. *)
Definition generator_cmd (radius : Z) (angle : num) (diverse : Z)
    (output_dir : option path) (verbose : bool) : command :=
  let cmd :=
    [ [Lit "python3"]; [Lit "generate_stls.py"];
      [Lit "-r"]; [FInt radius];
      [Lit "-a"]; [FNum angle];
      [Lit "-d"]; [FInt diverse] ] in
  let cmd :=
    match output_dir with
    | Some d => cmd ++ [[Lit "-o"]; str_path d]
    | None => cmd
    end in
  let cmd := if verbose then cmd ++ [[Lit "-v"]] else cmd in
  Argv cmd.

(** Run the STL generator for a specific radius. *)
Definition run_generator (radius : Z) (angle : num) (diverse : Z)
    (output_dir : option path) (verbose : bool) : M bool :=
  let cmd := generator_cmd radius angle diverse output_dir verbose in
  (if verbose then
     print [Lit nl; rule "=" 70];;
     print [Lit "Generating R"; FInt radius; Lit ": angle="; FNum angle;
            Lit "°, diverse="; FInt diverse];;
     print [rule "=" 70]
   else
     print_noend [Lit "Generating R"; FInt radius; Lit "... "]);;
  try_except
    (result ← subprocess_run spawn cmd (negb verbose) (Some 600);
     if returncode result =? 0 then
       print [Lit (if negb verbose then "✓" else "")];;
       mret true
     else
       print [Lit (if negb verbose then "✗" else "")];;
       eprint [Lit "Error: "; FOpt (cp_stderr result)];;
       mret false)
    (fun e =>
       match e with
       | TimeoutExpired => Some (
           print [Lit (if negb verbose then "✗ (timeout)" else "")];;
           eprint [Lit "Error: Timeout for R"; FInt radius];;
           mret false)
       | _ =>
           if is_Exception e then Some (
             print [Lit (if negb verbose then "✗ (error)" else "")];;
             eprint [Lit "Error generating R"; FInt radius; Lit ": "; FExn e];;
             mret false)
           else None
       end).

(** The parsed command line of the batch script. *)
Record args := {
  verbose : bool;
  output_dir : path;
  dry_run : bool;
}.

Definition configs : string :=
  "ballast_and_buddy, ballast, track_ballast_and_buddy, track_and_ballast".

Definition len (l : list Z) : Z := Z.of_nat (length l).

(** One row of the dry-run table. *)
Definition dry_run_row (radius : Z) (angle : num) (diverse : Z) : text :=
  [Lit "R"; FLjust 9 (FInt radius); Lit " "; FLjust 10 (FFixed 2 angle);
   Lit " "; FLjust 10 (FInt diverse); Lit " "; Lit configs].

(** The body of the generation loop: [(success_count, failed_radii)] is
    the pair of local variables it updates. *)
Definition generate_one (a : args) (diverse_map : gmap Z Z)
    (radius : Z) (st : Z * list Z) : M (Z * list Z) :=
  let '(success_count, failed_radii) := st in
  angle ← getitem ANGLE_MAP radius;
  diverse ← getitem diverse_map radius;
  ok ← run_generator radius angle diverse (Some (output_dir a)) (verbose a);
  if ok : bool then mret (success_count + 1, failed_radii)
  else mret (success_count, failed_radii ++ [radius]).

(** The body of the dry-run loop: one table row per radius. *)
Definition print_row (diverse_map : gmap Z Z) (radius : Z) (_ : unit) : M unit :=
  angle ← getitem ANGLE_MAP radius;
  diverse ← getitem diverse_map radius;
  print (dry_run_row radius angle diverse).

(** [main()], after the module-level tables have been built. *)
Definition main (a : args) : M unit :=
  diverse_map ← lift DIVERSE_MAP;
  if dry_run a then
    print [Lit "Dry run - would generate:"];;
    print [FLjust 10 (Lit "Radius"); Lit " "; FLjust 10 (Lit "Angle"); Lit " ";
           FLjust 10 (Lit "Diverse"); Lit " "; FLjust 30 (Lit "Configs")];;
    print [rule "-" 70];;
    for_fold RADII (print_row diverse_map) tt;;
    print [Lit nl; Lit "Total: "; FInt (len RADII); Lit " radii × 4 configs = ";
           FInt (len RADII * 4); Lit " STL files"]
  else
    print [Lit "Batch generating track STLs (R24-R120)"];;
    print [Lit "Output directory: "; FResolve (str_path (output_dir a))];;
    print [Lit "Total radii: "; FInt (len RADII)];;
    print [Lit "Total files: "; FInt (len RADII * 4); Lit nl];;
    '(success_count, failed_radii) ←
      for_fold RADII (generate_one a diverse_map) (0, []);
    let total_files := len RADII * 4 in
    let successful_files := success_count * 4 in
    print [Lit nl; rule "=" 70];;
    print [Lit "Batch Generation Complete"];;
    print [rule "=" 70];;
    print [Lit "Radii processed: "; FInt success_count; Lit "/"; FInt (len RADII)];;
    print [Lit "Files generated: "; FInt successful_files; Lit "/"; FInt total_files];;
    print [Lit "Output directory: "; FResolve (str_path (output_dir a))];;
    match failed_radii with
    | _ :: _ =>
        print [Lit nl; Lit "Failed radii: ";
               FJoin ", " (map (fun r => [Lit "R"; FInt r]) failed_radii)];;
        raise (SystemExit 1)
    | [] =>
        print [Lit "All files generated successfully! ✓"]
    end.

End Driver.

End batch_generate.

(* ===================================================================== *)
(** * generate_stls.py                                                    *)
(* ===================================================================== *)

Module generate_stls.

(** The three flags of a configuration, as the strings handed to
    OpenSCAD. *)
Record config_params := {
  generate_track : string;
  generate_ballast : string;
  generate_ballast_buddy : string;
}.

(** The dict literal [CONFIGURATIONS]; its keys are iterated in this
    order. *)
Definition CONFIGURATIONS : list (string * config_params) :=
  [ ("ballast_and_buddy",
     {| generate_track := "false"; generate_ballast := "true";
        generate_ballast_buddy := "true" |});
    ("ballast",
     {| generate_track := "false"; generate_ballast := "true";
        generate_ballast_buddy := "false" |});
    ("track_ballast_and_buddy",
     {| generate_track := "true"; generate_ballast := "true";
        generate_ballast_buddy := "true" |});
    ("track_and_ballast",
     {| generate_track := "true"; generate_ballast := "true";
        generate_ballast_buddy := "false" |}) ].

(** [d.keys()] and [d.get(k)] on a dict with string keys. *)
Definition keys {V} (d : list (string * V)) : list string := map fst d.

Fixpoint get {V} (d : list (string * V)) (k : string) : option V :=
  match d with
  | [] => None
  | (k', v) :: rest => if String.eqb k' k then Some v else get rest k
  end.

(** Generate OpenSCAD parameters for the given configuration. *)
Definition generate_scad_params (radius : Z) (angle : float) (config : string)
    (diverse : option Z) : result text :=
  match get CONFIGURATIONS config with
  | None => Raise (ValueError (String.append "Unknown configuration: " config))
  | Some params =>
      let param_list :=
        [ [Lit "-D 'Radius="; FInt radius; Lit "'"];
          [Lit "-D 'SegAng="; FNum (Float angle); Lit "'"];
          [Lit "-D 'generate_track="; Lit (generate_track params); Lit "'"];
          [Lit "-D 'generate_ballast="; Lit (generate_ballast params); Lit "'"];
          [Lit "-D 'generate_ballast_buddy=";
           Lit (generate_ballast_buddy params); Lit "'"] ] in
      let param_list :=
        match diverse with
        | Some d => param_list ++ [[Lit "-D 'diverse="; FInt d; Lit "'"]]
        | None => param_list
        end in
      Ok [FJoin " " param_list]
  end.

(** [f"openscad {params} -o '{output_file}' '{scad_file}'"] *)
Definition openscad_cmd (params : text) (output_file scad_file : path) : text :=
  [Lit "openscad "] ++ params ++ [Lit " -o '"] ++ str_path output_file ++
  [Lit "' '"] ++ str_path scad_file ++ [Lit "'"].

Definition which_openscad : command := Argv [[Lit "which"]; [Lit "openscad"]].

(** The parsed command line of the generator. *)
Record args := {
  radius : list Z;
  angle : float;
  config : option string;
  output_dir : path;
  scad_file : path;
  diverse : option Z;
  verbose : bool;
}.

(** [r{radius}_{config}.stl] inside the output directory. *)
Definition stl_path (output_dir : path) (radius : Z) (config : string) : path :=
  Child output_dir [Lit "r"; FInt radius; Lit "_"; Lit config; Lit ".stl"].

(** Truth value of an optional string: [None] and the empty string are
    false. *)
Definition truthy (o : option string) : option string :=
  match o with
  | Some EmptyString => None
  | _ => o
  end.

Section Generator.

Variable spawn : list (command * behaviour) -> command -> behaviour.
(** [p.exists()] on the file system. *)
Variable path_exists : path -> bool.

(** Check if OpenSCAD is installed and available. *)
Definition check_openscad : M unit :=
  result ← subprocess_run spawn which_openscad true None;
  if negb (returncode result =? 0) then
    eprint [Lit "Error: OpenSCAD is not installed or not in PATH"];;
    eprint [Lit "Please install OpenSCAD from https://openscad.org/"];;
    raise (SystemExit 1)
  else mret tt.

(** Generate a single STL file from the OpenSCAD file. *)
Definition generate_stl (scad_file output_file : path) (radius : Z)
    (angle : float) (config : string) (verbose : bool)
    (diverse : option Z) : M bool :=
  params ← lift (generate_scad_params radius angle config diverse);
  let cmd := openscad_cmd params output_file scad_file in
  (if verbose then
     print ([Lit "Generating: "] ++ path_name output_file);;
     print ([Lit "Command: "] ++ cmd)
   else mret tt);;
  try_except
    (result ← subprocess_run spawn (Shell cmd) true (Some 300);
     if negb (returncode result =? 0) then
       eprint ([Lit "Error generating "] ++ path_name output_file ++ [Lit ":"]);;
       eprint [FOpt (cp_stderr result)];;
       mret false
     else
       (if verbose then
          print ([Lit "✓ Successfully generated "] ++ path_name output_file)
        else mret tt);;
       mret true)
    (fun e =>
       match e with
       | TimeoutExpired => Some (
           eprint ([Lit "Error: Timeout generating "] ++ path_name output_file);;
           mret false)
       | _ =>
           if is_Exception e then Some (
             eprint ([Lit "Error generating "] ++ path_name output_file ++
                     [Lit ": "; FExn e]);;
             mret false)
           else None
       end).

(** The body of the loop over the configurations; the state is
    [(success_count, total_count)]. *)
Definition generate_config (scad_file output_dir : path) (radius : Z)
    (angle : float) (verbose : bool) (diverse : option Z)
    (config : string) (st : Z * Z) : M (Z * Z) :=
  let '(success_count, total_count) := st in
  let total_count := total_count + 1 in
  let output_file := stl_path output_dir radius config in
  ok ← generate_stl scad_file output_file radius angle config verbose diverse;
  if ok : bool then mret (success_count + 1, total_count)
  else
    eprint ([Lit "Failed to generate "] ++ path_name output_file);;
    mret (success_count, total_count).

(** Generate all configuration variants for the given radius and angle;
    returns [(success_count, total_count)]. *)
Definition generate_all_configs (scad_file output_dir : path) (radius : Z)
    (angle : float) (verbose : bool) (diverse : option Z) : M (Z * Z) :=
  mkdir output_dir;;
  for_fold (keys CONFIGURATIONS)
    (generate_config scad_file output_dir radius angle verbose diverse) (0, 0).

(** The body of the loop over [args.radius]; the state is
    [(total_success, total_generated)]. *)
Definition generate_radius (a : args) (radius : Z) (st : Z * Z) : M (Z * Z) :=
  let '(total_success, total_generated) := st in
  (if verbose a then
     print [Lit nl; rule "=" 60];;
     print [Lit "Generating STL files for R"; FInt radius; Lit ", ";
            FNum (Float (angle a)); Lit "°"];;
     print [rule "=" 60]
   else mret tt);;
  match truthy (config a) with
  | Some config =>
      (* Generate single config *)
      let output_file := stl_path (output_dir a) radius config in
      ok ← generate_stl (scad_file a) output_file radius (angle a) config
             (verbose a) (diverse a);
      mret (if ok : bool then total_success + 1 else total_success,
            total_generated + 1)
  | None =>
      (* Generate all configs *)
      '(success, total) ← generate_all_configs (scad_file a) (output_dir a)
                            radius (angle a) (verbose a) (diverse a);
      mret (total_success + success, total_generated + total)
  end.

Definition main (a : args) : M unit :=
  (* Validate paths *)
  (if negb (path_exists (scad_file a)) then
     eprint ([Lit "Error: SCAD file not found: "] ++ str_path (scad_file a));;
     raise (SystemExit 1)
   else mret tt);;
  (* Check OpenSCAD availability *)
  check_openscad;;
  (* Generate files *)
  '(total_success, total_generated) ←
    for_fold (radius a) (generate_radius a) (0, 0);
  (* Summary *)
  print [Lit nl; rule "=" 60];;
  print [Lit "Generation Complete: "; FInt total_success; Lit "/";
         FInt total_generated; Lit " files successfully generated"];;
  print [Lit "Output directory: "; FResolve (str_path (output_dir a))];;
  print [rule "=" 60];;
  if total_success <? total_generated then raise (SystemExit 1)
  else mret tt.

End Generator.

End generate_stls.


Import batch_generate.

(* ===================================================================== *)
(** * The properties as the specification words them                      *)
(* ===================================================================== *)

Module Spec.

(** Truncation toward zero of a rational, the exact meaning of [int]. *)
Definition Qtrunc (q : Q) : Z := Z.quot (Qnum q) (Z.pos (Qden q)).

(** [min(int(0.8125*(radius-64)^2+500), 1800)] over the rationals. *)
Definition diverse_formula (radius : Z) : Z :=
  Z.min (Qtrunc ((13 # 16) * inject_Z ((radius - 64) ^ 2) + inject_Z 500)%Q) 1800.

(** The documented angle steps 22.5, 18, 15 and 11.25. *)
Definition angle_steps : list Q := [45 # 2; 18 # 1; 15 # 1; 45 # 4]%Q.

(** The exact value of a number of the tables. *)
Definition num_value (x : num) : option Q :=
  match x with
  | Int z => Some (inject_Z z)
  | Float (S754_zero _) => Some 0%Q
  | Float (S754_finite s m e) =>
      Some (inject_Z (cond_Zopp s (Z.pos m)) * Qpower 2 e)%Q
  | Float _ => None
  end.

(** The differences between consecutive entries of a list. *)
Fixpoint steps (l : list Z) : list Z :=
  match l with
  | x :: (y :: _) as rest => (y - x) :: steps rest
  | _ => []
  end.

(** A step pattern is non-uniform when two of its steps differ. *)
Definition non_uniform (l : list Z) : Prop :=
  exists s1 s2, s1 ∈ steps l /\ s2 ∈ steps l /\ s1 <> s2.

(** What a child did, in the three ways the specification lists for a
    single job: exit code zero, nonzero exit code, timeout. *)
Definition three_outcomes (timeout : Z) (b : behaviour) : Prop :=
  (exists out err seconds, b = Exits 0 out err seconds /\ seconds <= timeout) \/
  (exists rc out err seconds,
     b = Exits rc out err seconds /\ rc <> 0 /\ seconds <= timeout) \/
  (exists rc out err seconds, b = Exits rc out err seconds /\ timeout < seconds).

End Spec.

(* ===================================================================== *)
(** * Vocabulary of the statements                                        *)
(* ===================================================================== *)

(** The thirteen values of the module-level diverse table. *)
Definition diverse_table : gmap Z Z :=
  list_to_map
    [ (24, 1800); (32, 1332); (40, 968); (48, 708); (56, 552); (64, 500);
      (72, 552); (80, 708); (88, 968); (96, 1332); (104, 1800);
      (112, 1800); (120, 1800) ].

(** The shape of the diverse curve on two radii, as a decision. *)
Definition v_shape_check (r1 r2 : Z) : bool :=
  match calculate_diverse r1, calculate_diverse r2, calculate_diverse 64 with
  | Ok d1, Ok d2, Ok d0 =>
      (d0 =? 500) && (500 <=? d1) && (d1 <=? 1800) &&
      (negb (r1 <=? r2) || negb (r2 <=? 64) || (d2 <=? d1)) &&
      (negb (r1 <=? r2) || negb (64 <=? r1) || (d1 <=? d2))
  | _, _, _ => false
  end.

(** The radii of [radii] whose child, in call order, did not succeed. *)
Definition failed_radii_of (capture_output : bool) (timeout : Z) (radii : list Z)
    (trace : list (command * behaviour)) : list Z :=
  map fst (List.filter (fun p => negb (run_ok capture_output timeout (snd (snd p))))
             (zip radii trace)).

(** The number of calls of a trace whose child succeeded, and the number
    of calls. *)
Definition count_ok (capture_output : bool) (timeout : Z)
    (trace : list (command * behaviour)) : Z :=
  Z.of_nat (length (List.filter (fun cb => run_ok capture_output timeout (snd cb)) trace)).

Definition len_calls (trace : list (command * behaviour)) : Z :=
  Z.of_nat (length trace).

(** The call made for [radius] by the batch driver. *)
Definition batch_job (a : args) (dm : gmap Z Z) (radius : Z)
    (cb : command * behaviour) : Prop :=
  exists angle diverse,
    ANGLE_MAP !! radius = Some angle /\ dm !! radius = Some diverse /\
    fst cb = generator_cmd radius angle diverse (Some (output_dir a)) (verbose a).


(** The configurations one run of the generator produces per radius. *)
Definition selected (a : generate_stls.args) : list string :=
  match generate_stls.truthy (generate_stls.config a) with
  | Some c => [c]
  | None => generate_stls.keys generate_stls.CONFIGURATIONS
  end.

(** The jobs of one run, in order: every radius with every selected
    configuration. *)
Definition jobs (a : generate_stls.args) : list (Z * string) :=
  flat_map (fun r => map (pair r) (selected a)) (generate_stls.radius a).

(** The call made for one radius and configuration. *)
Definition stl_job (scad_file output_dir : path) (angle : float)
    (diverse : option Z) (rc : Z * string) (cb : command * behaviour) : Prop :=
  exists params,
    generate_stls.generate_scad_params (fst rc) angle (snd rc) diverse = Ok params /\
    fst cb = Shell (generate_stls.openscad_cmd params
                      (generate_stls.stl_path output_dir (fst rc) (snd rc))
                      scad_file).

(** The [choices] constraint of the command line parser on [--config]. *)
Definition config_valid (a : generate_stls.args) : Prop :=
  match generate_stls.config a with
  | Some c => c ∈ generate_stls.keys generate_stls.CONFIGURATIONS
  | None => True
  end.

(** ** Sample environments and command lines *)

(** Every child exits with code zero after five seconds, except the third
    one called, which exits with code one. *)
Definition third_fails : list (command * behaviour) -> command -> behaviour :=
  fun history _ =>
    if (length history =? 2)%nat then Exits 1 "" "render failed" 5
    else Exits 0 "" "" 5.

(** No child can be started. *)
Definition no_launch : list (command * behaviour) -> command -> behaviour :=
  fun _ _ => LaunchFails "No such file or directory".

(** Every path exists. *)
Definition all_exist : path -> bool := fun _ => true.

(** Every child exits with code one. *)
Definition all_fail : list (command * behaviour) -> command -> behaviour :=
  fun _ _ => Exits 1 "" "" 0.

(** Every child exits with code two after three seconds; its error
    text ends in a carriage return and a line feed. *)
Definition crlf_fail : list (command * behaviour) -> command -> behaviour :=
  fun _ _ =>
    Exits 2 ""
      (String.append "render failed" (String char_cr (String char_lf EmptyString))) 3.

(** Every child exits with code zero after one second, having written
    bytes on its standard output that are not text, and an error line
    that ends in a carriage return and a line feed. *)
Definition garbled : list (command * behaviour) -> command -> behaviour :=
  fun _ _ =>
    Exits 0 (Undecodable "'utf-8' codec can't decode byte 0xff in position 0")
      (String.append "done" (String char_cr (String char_lf EmptyString))) 1.

Definition batch_args (dry : bool) : args :=
  {| verbose := false; output_dir := Path "out"; dry_run := dry |}.

Definition stl_args : generate_stls.args :=
  {| generate_stls.radius := [24; 32];
     generate_stls.angle := f22_5;
     generate_stls.config := None;
     generate_stls.output_dir := Path "out";
     generate_stls.scad_file := Path "curves.scad";
     generate_stls.diverse := Some 1800;
     generate_stls.verbose := false |}.

(** The order of the angles of two radii, as a decision. *)
Definition angle_order_check (r1 r2 : Z) : bool :=
  match ANGLE_MAP !! r1, ANGLE_MAP !! r2 with
  | Some a1, Some a2 =>
      match Spec.num_value a1, Spec.num_value a2 with
      | Some q1, Some q2 => negb (r1 <=? r2) || Qle_bool q2 q1
      | _, _ => false
      end
  | _, _ => false
  end.

Ltac run_M :=
  unfold try_except, subprocess_run, getitem, lift, raise, mkdir,
    print, print_noend, eprint, write_stdout, write_stderr,
    mbind, M_bind, mret, M_ret;
  cbn -[generator_cmd Z.ltb Z.eqb Z.add Z.mul generate_stls.openscad_cmd path_name].

(* ===================================================================== *)
(** * Facts about binary64 rounding                                       *)
(* ===================================================================== *)

(** The number of binary digits of a mantissa. *)
Lemma digits2_pos_size p : digits2_pos p = Pos.size p.
Proof. induction p; simpl; congruence. Qed.

Lemma digits2_log2 p : Z.pos (digits2_pos p) = Z.log2 (Z.pos p) + 1.
Proof. rewrite digits2_pos_size. destruct p; simpl; lia. Qed.

Lemma digits2_bounds p :
  2 ^ (Z.pos (digits2_pos p) - 1) <= Z.pos p < 2 ^ Z.pos (digits2_pos p).
Proof.
  rewrite digits2_log2. replace (Z.log2 (Z.pos p) + 1 - 1) with (Z.log2 (Z.pos p)) by lia.
  apply Z.log2_spec. lia.
Qed.

Lemma digits2_unique p d :
  2 ^ (d - 1) <= Z.pos p < 2 ^ d -> Z.pos (digits2_pos p) = d.
Proof.
  intros H. rewrite digits2_log2.
  assert (0 <= d - 1).
  { destruct (Z_lt_le_dec (d - 1) 0) as [Hn|]; [|assumption].
    destruct (Z_lt_le_dec d 0) as [Hd|Hd].
    - rewrite (Z.pow_neg_r 2 d) in H by assumption. lia.
    - replace d with 0 in H by lia. simpl in H. lia. }
  rewrite (Z.log2_unique (Z.pos p) (d - 1)); try lia.
  replace (Z.succ (d - 1)) with d by lia. assumption.
Qed.

(** Shifting right [n] times divides by [2^n]; the round bit is the last
    bit shifted out. *)
Lemma iter_pos_nat {A} (f : A -> A) p x :
  SpecFloat.iter_pos f p x = Nat.iter (Pos.to_nat p) f x.
Proof.
  revert x. induction p as [p IH|p IH|]; intros x; cbn [SpecFloat.iter_pos].
  - rewrite !IH. rewrite Pos2Nat.inj_xI.
    replace (S (2 * Pos.to_nat p))%nat with (Pos.to_nat p + (Pos.to_nat p + 1))%nat by lia.
    rewrite !Nat.iter_add. reflexivity.
  - rewrite !IH. rewrite Pos2Nat.inj_xO.
    replace (2 * Pos.to_nat p)%nat with (Pos.to_nat p + Pos.to_nat p)%nat by lia.
    rewrite Nat.iter_add. reflexivity.
  - reflexivity.
Qed.

Lemma shr_1_m mrs : 0 <= shr_m mrs -> shr_m (shr_1 mrs) = shr_m mrs / 2.
Proof.
  destruct mrs as [m r s]; simpl. intros Hm.
  destruct m as [|[p|p|]|p]; cbn [shr_m]; try lia; try reflexivity.
  - apply Z.div_unique with 1; lia.
  - apply Z.div_unique with 0; lia.
Qed.

Lemma shr_1_r mrs : 0 <= shr_m mrs -> shr_r (shr_1 mrs) = Z.odd (shr_m mrs).
Proof.
  destruct mrs as [m r s]; simpl. intros Hm.
  destruct m as [|[p|p|]|p]; simpl; try reflexivity; lia.
Qed.

Lemma shr_iter_m n mrs :
  0 <= shr_m mrs ->
  shr_m (Nat.iter n shr_1 mrs) = shr_m mrs / 2 ^ Z.of_nat n.
Proof.
  intros Hm. induction n as [|n IH].
  - simpl. rewrite Z.div_1_r. reflexivity.
  - change (Nat.iter (S n) shr_1 mrs) with (shr_1 (Nat.iter n shr_1 mrs)).
    rewrite shr_1_m.
    + rewrite IH, Nat2Z.inj_succ, Z.pow_succ_r by lia.
      rewrite Z.div_div by lia. f_equal. lia.
    + rewrite IH. apply Z.div_pos; lia.
Qed.

Lemma shr_iter_r n mrs :
  0 <= shr_m mrs ->
  shr_r (Nat.iter (S n) shr_1 mrs) = Z.testbit (shr_m mrs) (Z.of_nat n).
Proof.
  intros Hm.
  change (Nat.iter (S n) shr_1 mrs) with (shr_1 (Nat.iter n shr_1 mrs)).
  rewrite shr_1_r.
  - rewrite shr_iter_m by assumption.
    rewrite Z.testbit_odd, Z.shiftr_div_pow2 by lia. reflexivity.
  - rewrite shr_iter_m by assumption. apply Z.div_pos; lia.
Qed.

(** The exponent of the format: 53 bits, subnormals from [2^-1074]. *)
Lemma fexp64_eq x : fexp 53 1024 x = Z.max (x - 53) (-1074).
Proof. reflexivity. Qed.

(** Truncation of a [d]-digit mantissa to 53 digits. *)
Lemma shr_fexp_spec p e d :
  -1074 <= e -> 2 ^ (d - 1) <= Z.pos p < 2 ^ d ->
  exists mrs,
    shr_fexp 53 1024 (Z.pos p) e loc_Exact = (mrs, e + Z.max 0 (d - 53)) /\
    shr_m mrs = Z.pos p / 2 ^ Z.max 0 (d - 53) /\
    shr_r mrs = Z.testbit (Z.pos p) (d - 53 - 1).
Proof.
  intros He Hd. unfold shr_fexp.
  change (Zdigits2 (Z.pos p)) with (Z.pos (digits2_pos p)).
  rewrite (digits2_unique p d Hd), fexp64_eq.
  destruct (Z_le_gt_dec (d - 53) 0) as [Hk|Hk].
  - exists {| shr_m := Z.pos p; shr_r := false; shr_s := false |}.
    replace (Z.max 0 (d - 53)) with 0 by lia.
    rewrite Z.add_0_r, Z.pow_0_r, Z.div_1_r. cbn [shr_m shr_r].
    split; [|split; [reflexivity|]].
    2: { symmetry. apply Z.testbit_neg_r. lia. }
    unfold shr. cbn [shr_record_of_loc].
    destruct (Z.max (d + e - 53) (-1074) - e) eqn:E; try reflexivity. lia.
  - replace (Z.max (d + e - 53) (-1074) - e) with (d - 53) by lia.
    replace (Z.max 0 (d - 53)) with (d - 53) by lia.
    destruct (d - 53) as [|kp|kp] eqn:E; try lia.
    unfold shr. cbn [shr_record_of_loc]. rewrite iter_pos_nat.
    eexists. split; [reflexivity|].
    destruct (Pos2Nat.is_succ kp) as [n Hn]. rewrite Hn.
    assert (Hkp : Z.pos kp = Z.of_nat (S n)) by lia.
    split.
    + rewrite shr_iter_m by (cbn; lia). rewrite Hkp. reflexivity.
    + rewrite shr_iter_r by (cbn; lia). cbn [shr_m].
      replace (Z.pos kp - 1) with (Z.of_nat n) by lia. reflexivity.
Qed.

(** Round to nearest, ties to even: the truncated mantissa or its
    successor. *)
Lemma round_nearest_even_cases mrs :
  let q := shr_m mrs in
  let r1 := round_nearest_even q (loc_of_shr_record mrs) in
  (r1 = q \/ (r1 = q + 1 /\ shr_r mrs = true)) /\
  (shr_r mrs = true -> Z.odd q = true -> r1 = q + 1).
Proof.
  destruct mrs as [m [|] [|]]; cbn.
  - split; auto.
  - rewrite <- Z.negb_odd. destruct (Z.odd m); cbn; split; auto; discriminate.
  - split; [auto|discriminate].
  - split; [auto|discriminate].
Qed.

(** Rounding a positive mantissa [p] of [d] digits at exponent [e]. *)
Lemma binary_round_aux_spec s p e d :
  -1074 <= e -> 2 ^ (d - 1) <= Z.pos p < 2 ^ d ->
  let k := Z.max 0 (d - 53) in
  let q := Z.pos p / 2 ^ k in
  exists m' e',
    binary_round_aux 53 1024 s (Z.pos p) e loc_Exact =
      (if e' <=? 971 then S754_finite s m' e' else S754_infinity s) /\
    ((e' = e + k /\ Z.pos m' < 2 ^ 53 /\
      (Z.pos m' = q \/
       (Z.pos m' = q + 1 /\ 0 < k /\ Z.testbit (Z.pos p) (k - 1) = true)))
     \/
     (e' = e + k + 1 /\ Z.pos m' = 2 ^ 52 /\ q + 1 = 2 ^ 53 /\
      0 < k /\ Z.testbit (Z.pos p) (k - 1) = true)) /\
    (Z.testbit (Z.pos p) (d - 53 - 1) = true -> Z.odd q = true -> Z.pos m' <> q).
Proof.
  intros He Hd k q.
  assert (Hd1 : 1 <= d).
  { destruct (Z_lt_le_dec d 1); [|assumption].
    assert (2 ^ d <= 2 ^ 0) by (destruct (Z_lt_le_dec d 0);
      [rewrite Z.pow_neg_r by assumption; cbn; lia | apply Z.pow_le_mono_r; lia]).
    cbn in H. lia. }
  assert (Hk : 0 <= k <= d - 1) by (unfold k; lia).
  assert (Hq : 1 <= q < 2 ^ 53).
  { unfold q. split.
    - apply Z.div_le_lower_bound; [apply Z.pow_pos_nonneg; lia|].
      rewrite Z.mul_1_r. etransitivity; [|apply Hd]. apply Z.pow_le_mono_r; lia.
    - apply Z.div_lt_upper_bound; [apply Z.pow_pos_nonneg; lia|].
      rewrite <- Z.pow_add_r by lia.
      eapply Z.lt_le_trans; [apply Hd|]. apply Z.pow_le_mono_r; lia. }
  destruct (shr_fexp_spec p e d He Hd) as (mrs & E1 & Hm & Hr).
  fold k in E1, Hm. fold q in Hm.
  unfold binary_round_aux. rewrite E1.
  pose proof (round_nearest_even_cases mrs) as [Hr1 Hodd]. cbn zeta in Hr1, Hodd.
  rewrite Hm in Hr1, Hodd. rewrite Hr in Hodd.
  assert (Hr' : shr_r mrs = true ->
                0 < d - 53 /\ Z.testbit (Z.pos p) (d - 53 - 1) = true).
  { rewrite Hr. intros Hb. split; [|assumption].
    destruct (Z_lt_le_dec 0 (d - 53)); [assumption|].
    rewrite Z.testbit_neg_r in Hb by lia. discriminate. }
  set (r1 := round_nearest_even q (loc_of_shr_record mrs)) in *.
  rewrite Hm. fold r1.
  assert (Hup : r1 = q \/ (r1 = q + 1 /\ 0 < k /\ Z.testbit (Z.pos p) (k - 1) = true)).
  { destruct Hr1 as [?|[? Hrt]]; [left; assumption|right].
    destruct (Hr' Hrt) as [Hk0 Hb]. unfold k.
    replace (Z.max 0 (d - 53)) with (d - 53) by lia. auto. }
  clearbody r1. clear Hr1 Hr Hr'.
  destruct r1 as [|r1p|r1p]; try lia.
  destruct (Z.eq_dec (Z.pos r1p) (2 ^ 53)) as [Hc|Hc].
  - (* the mantissa carried to 2^53: one more shift *)
    destruct (shr_fexp_spec r1p (e + k) 54) as (mrs2 & E2 & Hm2 & _);
      [lia | rewrite Hc; cbn; lia |].
    rewrite E2. rewrite Hm2, Hc. change (2 ^ 53 / 2 ^ Z.max 0 (54 - 53)) with (Z.pos (2 ^ 52)).
    cbv iota beta. change (1024 - 53) with 971.
    exists (2 ^ 52)%positive, (e + k + 1).
    split; [replace (e + k + Z.max 0 (54 - 53)) with (e + k + 1) by lia; reflexivity|].
    split.
    + right. split; [reflexivity|]. split; [reflexivity|].
      destruct Hup as [Hup|Hup]; [lia|]. destruct Hup as (? & ? & ?).
      repeat split; try assumption; lia.
    + intros _ _. change (Z.pos (2 ^ 52)) with (2 ^ 52).
      destruct Hup as [Hup|(Hup & _)]; lia.
  - destruct (shr_fexp_spec r1p (e + k) (Z.pos (digits2_pos r1p))) as (mrs2 & E2 & Hm2 & _);
      [lia | apply digits2_bounds |].
    assert (Hdr : Z.pos (digits2_pos r1p) <= 53).
    { pose proof (digits2_bounds r1p) as Hb.
      destruct (Z_le_gt_dec (Z.pos (digits2_pos r1p)) 53); [assumption|].
      assert (2 ^ 53 <= 2 ^ (Z.pos (digits2_pos r1p) - 1)) by (apply Z.pow_le_mono_r; lia).
      lia. }
    replace (Z.max 0 (Z.pos (digits2_pos r1p) - 53)) with 0 in E2, Hm2 by lia.
    rewrite Z.pow_0_r, Z.div_1_r in Hm2. rewrite Z.add_0_r in E2.
    rewrite E2, Hm2. cbv iota beta. change (1024 - 53) with 971.
    exists r1p, (e + k). split; [reflexivity|]. split.
    + left. split; [reflexivity|]. split; [lia|]. assumption.
    + intros Hb Ho. rewrite (Hodd Hb Ho). lia.
Qed.

(** Alignment shifts a mantissa left to the smaller exponent. *)
Lemma iter_xO p n : Z.pos (Pos.iter xO p n) = Z.pos p * 2 ^ Z.pos n.
Proof.
  induction n as [|n IH] using Pos.peano_ind.
  - cbn [Pos.iter]. rewrite Z.pow_1_r. lia.
  - rewrite Pos.iter_succ, Pos2Z.inj_xO, IH, Pos2Z.inj_succ, Z.pow_succ_r by lia. lia.
Qed.

Lemma shl_align_spec mx ex ex' :
  snd (shl_align mx ex ex') = Z.min ex ex' /\
  Z.pos (fst (shl_align mx ex ex')) = Z.pos mx * 2 ^ (ex - Z.min ex ex').
Proof.
  unfold shl_align. destruct (ex' - ex) as [|d|d] eqn:E; cbn [fst snd].
  - replace (Z.min ex ex') with ex by lia. rewrite Z.sub_diag. cbn. lia.
  - replace (Z.min ex ex') with ex by lia. rewrite Z.sub_diag. cbn. lia.
  - replace (Z.min ex ex') with ex' by lia. rewrite iter_xO.
    replace (ex - ex') with (Z.pos d) by lia. auto.
Qed.

(** A set bit and the remainder it bounds. *)
Lemma testbit_true_mod a j :
  0 <= j -> Z.testbit a j = true -> 2 ^ j <= a mod 2 ^ (j + 1).
Proof.
  intros Hj Hb. apply Z.testbit_true in Hb; [|assumption].
  rewrite Z.pow_add_r, Z.pow_1_r by lia.
  assert (0 < 2 ^ j) by (apply Z.pow_pos_nonneg; lia).
  rewrite Z.rem_mul_r by lia. rewrite Hb.
  pose proof (Z.mod_pos_bound a (2 ^ j)). lia.
Qed.

(** When the round bit is set, the mantissa is at least half a unit above
    the truncated quotient. *)
Lemma round_bit_lower a k :
  0 < k -> Z.testbit a (k - 1) = true ->
  (a / 2 ^ k) * 2 ^ k + 2 ^ (k - 1) <= a.
Proof.
  intros Hk Hb. apply testbit_true_mod in Hb; [|lia].
  replace (k - 1 + 1) with k in Hb by lia.
  assert (0 < 2 ^ k) by (apply Z.pow_pos_nonneg; lia).
  pose proof (Z.div_mod a (2 ^ k)). lia.
Qed.

Lemma div_pow2_lower a d :
  53 <= d -> 2 ^ (d - 1) <= a -> 2 ^ 52 <= a / 2 ^ (d - 53).
Proof.
  intros Hd Ha. apply Z.div_le_lower_bound; [apply Z.pow_pos_nonneg; lia|].
  rewrite <- Z.pow_add_r by lia. replace (d - 53 + 52) with (d - 1) by lia. assumption.
Qed.

Lemma digits_le a d D : 0 <= D -> 2 ^ (d - 1) <= a -> a < 2 ^ D -> d <= D.
Proof.
  intros HD H1 H2. destruct (Z_le_gt_dec d D); [assumption|].
  assert (2 ^ D <= 2 ^ (d - 1)) by (apply Z.pow_le_mono_r; lia). lia.
Qed.

Lemma digits_ge a d D : 0 <= D -> 2 ^ D <= a -> a < 2 ^ d -> D < d.
Proof.
  intros HD H1 H2. destruct (Z_lt_le_dec D d); [assumption|].
  assert (2 ^ d <= 2 ^ D) by (apply Z.pow_le_mono_r; lia). lia.
Qed.

(** Conversion of a positive int below the overflow threshold gives a
    normal float. *)
Lemma binary_normalize_int n :
  0 < n < 2 ^ 1024 - 2 ^ 970 ->
  exists m e,
    binary_normalize 53 1024 n 0 false = S754_finite false m e /\
    2 ^ 52 <= Z.pos m < 2 ^ 53 /\ -52 <= e <= 971.
Proof.
  intros Hn. destruct n as [|p|p]; try lia.
  cbn [binary_normalize]. unfold binary_round.
  pose proof (digits2_bounds p) as Hd.
  set (d := Z.pos (digits2_pos p)) in *.
  assert (Hd1 : 1 <= d) by (unfold d; lia).
  pose proof (shl_align_spec p 0 (fexp 53 1024 (d + 0))) as [Hez Hmz].
  destruct (shl_align p 0 (fexp 53 1024 (d + 0))) as [mz ez]. cbn [fst snd] in Hez, Hmz.
  rewrite fexp64_eq in Hez, Hmz.
  destruct (Z_le_gt_dec d 53) as [Hs|Hb].
  - (* at most 53 bits: the conversion is exact *)
    replace (Z.min 0 (Z.max (d + 0 - 53) (-1074))) with (d - 53) in Hez, Hmz by lia.
    replace (0 - (d - 53)) with (53 - d) in Hmz by lia.
    assert (Hmb : 2 ^ (53 - 1) <= Z.pos mz < 2 ^ 53).
    { rewrite Hmz. replace (53 - 1) with ((d - 1) + (53 - d)) by lia.
      replace (2 ^ 53) with (2 ^ (d + (53 - d))) by (f_equal; lia).
      rewrite !Z.pow_add_r by lia.
      assert (0 < 2 ^ (53 - d)) by (apply Z.pow_pos_nonneg; lia). nia. }
    destruct (binary_round_aux_spec false mz ez 53 ltac:(lia) Hmb)
      as (m' & e' & E & Hc & Hup).
    rewrite E. change (Z.max 0 (53 - 53)) with 0 in Hc.
    rewrite Z.pow_0_r, Z.div_1_r in Hc.
    destruct Hc as [(He' & Hm' & Hq)|(_ & _ & _ & Hk & _)]; [|lia].
    destruct Hq as [Hq|(_ & Hk & _)]; [|lia].
    exists m', e'. replace (e' <=? 971) with true by (symmetry; apply Z.leb_le; lia).
    split; [reflexivity|]. change (53 - 1) with 52 in Hmb. lia.
  - (* more than 53 bits: rounding to nearest even *)
    replace (Z.min 0 (Z.max (d + 0 - 53) (-1074))) with 0 in Hez, Hmz by lia.
    rewrite Z.sub_diag, Z.pow_0_r, Z.mul_1_r in Hmz.
    assert (mz = p) by congruence. subst mz ez.
    assert (Hd2 : d <= 1024).
    { apply (digits_le (Z.pos p) d 1024); lia. }
    destruct (binary_round_aux_spec false p 0 d ltac:(lia) Hd)
      as (m' & e' & E & Hc & Hup).
    rewrite E. replace (Z.max 0 (d - 53)) with (d - 53) in Hc by lia.
    pose proof (div_pow2_lower (Z.pos p) d ltac:(lia) (proj1 Hd)) as Hq52.
    exists m', e'.
    assert (He' : -52 <= e' <= 971 /\ 2 ^ 52 <= Z.pos m' < 2 ^ 53).
    { destruct Hc as [(He' & Hm' & Hq)|(He' & Hm' & Hq & Hk & Hbit)].
      - split; [lia|]. destruct Hq as [Hq|(Hq & _)]; lia.
      - split; [|rewrite Hm'; lia].
        destruct (Z.eq_dec d 1024) as [->|]; [|lia].
        pose proof (round_bit_lower _ _ Hk Hbit) as Hlow.
        change (1024 - 53) with 971 in *. change (971 - 1) with 970 in Hlow.
        lia. }
    replace (e' <=? 971) with true by (symmetry; apply Z.leb_le; lia).
    split; [reflexivity|]. lia.
Qed.

Lemma mod_testbit_true a j :
  0 <= j -> 2 ^ j <= a mod 2 ^ (j + 1) -> Z.testbit a j = true.
Proof.
  intros Hj Hm. apply Z.testbit_true; [assumption|].
  rewrite Z.pow_add_r, Z.pow_1_r in Hm by lia.
  assert (0 < 2 ^ j) by (apply Z.pow_pos_nonneg; lia).
  rewrite Z.rem_mul_r in Hm by lia.
  pose proof (Z.mod_pos_bound a (2 ^ j) ltac:(lia)).
  pose proof (Z.mod_pos_bound (a / 2 ^ j) 2 ltac:(lia)).
  nia.
Qed.

(** Conversion of an int at or above the threshold overflows. *)
Lemma binary_normalize_overflow n :
  2 ^ 1024 - 2 ^ 970 <= n ->
  binary_normalize 53 1024 n 0 false = S754_infinity false.
Proof.
  intros Hn. destruct n as [|p|p]; try lia.
  cbn [binary_normalize]. unfold binary_round.
  pose proof (digits2_bounds p) as Hd.
  set (d := Z.pos (digits2_pos p)) in *.
  assert (Hd1 : 1024 <= d).
  { assert (1023 < d); [|lia]. apply (digits_ge (Z.pos p)); lia. }
  pose proof (shl_align_spec p 0 (fexp 53 1024 (d + 0))) as [Hez Hmz].
  destruct (shl_align p 0 (fexp 53 1024 (d + 0))) as [mz ez]. cbn [fst snd] in Hez, Hmz.
  rewrite fexp64_eq in Hez, Hmz.
  replace (Z.min 0 (Z.max (d + 0 - 53) (-1074))) with 0 in Hez, Hmz by lia.
  rewrite Z.sub_diag, Z.pow_0_r, Z.mul_1_r in Hmz.
  assert (mz = p) by congruence. subst mz ez.
  destruct (binary_round_aux_spec false p 0 d ltac:(lia) Hd)
    as (m' & e' & E & Hc & Hup).
  rewrite E. replace (Z.max 0 (d - 53)) with (d - 53) in Hc, Hup by lia.
  assert (He' : 971 < e'); [|replace (e' <=? 971) with false
                               by (symmetry; apply Z.leb_gt; lia); reflexivity].
  destruct (Z.eq_dec d 1024) as [Hd2|Hd2];
    [|destruct Hc as [(He' & _)|(He' & _)]; lia].
  rewrite Hd2 in *. change (1024 - 53) with 971 in *. change (971 - 1) with 970 in *.
  destruct Hc as [(He' & Hm' & Hq)|(He' & _)]; [|lia]. exfalso.
  pose proof (Z.div_mod (Z.pos p) (2 ^ 971) ltac:(lia)) as Hdm.
  pose proof (Z.mod_pos_bound (Z.pos p) (2 ^ 971) ltac:(lia)) as Hmb.
  assert (Hq1 : Z.pos p / 2 ^ 971 = 2 ^ 53 - 1).
  { assert (Z.pos p / 2 ^ 971 < 2 ^ 53) by (apply Z.div_lt_upper_bound; lia).
    assert (2 ^ 53 - 1 <= Z.pos p / 2 ^ 971) by (apply Z.div_le_lower_bound; lia).
    lia. }
  assert (Hbit : Z.testbit (Z.pos p) 970 = true).
  { apply mod_testbit_true; [lia|]. change (970 + 1) with 971. lia. }
  assert (Hodd : Z.odd (Z.pos p / 2 ^ 971) = true) by (rewrite Hq1; reflexivity).
  specialize (Hup Hbit Hodd).
  destruct Hq as [Hq|(Hq & _)]; lia.
Qed.

(** The two constants of the curve as floats. *)
Lemma a_eq : a = S754_finite false (13 * 2 ^ 49) (-53).
Proof. reflexivity. Qed.

Lemma float_of_int_500 :
  float_of_int minimum = Ok (S754_finite false (500 * 2 ^ 44) (-44)).
Proof. reflexivity. Qed.

(** Multiplying a normal float by 0.8125 stays in range. *)
Lemma mul_a_spec mx ex :
  2 ^ 52 <= Z.pos mx < 2 ^ 53 -> -52 <= ex <= 971 ->
  exists m2 e2,
    SFmul 53 1024 a (S754_finite false mx ex) = S754_finite false m2 e2 /\
    2 ^ 52 <= Z.pos m2 < 2 ^ 53 /\ -53 <= e2 <= 971 /\
    (e2 <= 970 \/ Z.pos m2 <= 13 * 2 ^ 49).
Proof.
  intros Hm He. rewrite a_eq. cbn [SFmul xorb].
  set (P := (13 * 2 ^ 49 * mx)%positive).
  assert (HP : Z.pos P = 13 * 2 ^ 49 * Z.pos mx) by reflexivity.
  destruct (Z_lt_le_dec (Z.pos P) (2 ^ 105)) as [Hlt|Hge].
  - assert (Hd : 2 ^ (105 - 1) <= Z.pos P < 2 ^ 105) by (split; [|assumption]; lia).
    destruct (binary_round_aux_spec false P (-53 + ex) 105 ltac:(lia) Hd)
      as (m' & e' & E & Hc & Hup).
    rewrite E. change (Z.max 0 (105 - 53)) with 52 in Hc.
    pose proof (div_pow2_lower (Z.pos P) 105 ltac:(lia) (proj1 Hd)) as Hq52.
    change (105 - 53) with 52 in Hq52.
    exists m', e'.
    assert (-53 <= e' <= 971 /\ 2 ^ 52 <= Z.pos m' < 2 ^ 53 /\
            (e' <= 970 \/ Z.pos m' <= 13 * 2 ^ 49)) as (? & ? & ?).
    { destruct Hc as [(He' & Hm' & Hq)|(He' & Hm' & _)].
      - split; [lia|]. split; [|lia]. destruct Hq as [Hq|(Hq & _)]; lia.
      - rewrite Hm'. lia. }
    replace (e' <=? 971) with true by (symmetry; apply Z.leb_le; lia).
    auto.
  - assert (Hd : 2 ^ (106 - 1) <= Z.pos P < 2 ^ 106) by (split; [assumption|]; lia).
    destruct (binary_round_aux_spec false P (-53 + ex) 106 ltac:(lia) Hd)
      as (m' & e' & E & Hc & Hup).
    rewrite E. change (Z.max 0 (106 - 53)) with 53 in Hc.
    pose proof (div_pow2_lower (Z.pos P) 106 ltac:(lia) (proj1 Hd)) as Hq52.
    change (106 - 53) with 53 in Hq52.
    assert (Hq : Z.pos P / 2 ^ 53 < 13 * 2 ^ 49).
    { apply Z.div_lt_upper_bound; lia. }
    exists m', e'.
    assert (-53 <= e' <= 971 /\ 2 ^ 52 <= Z.pos m' < 2 ^ 53 /\
            (e' <= 970 \/ Z.pos m' <= 13 * 2 ^ 49)) as (? & ? & ?).
    { destruct Hc as [(He' & Hm' & Hq')|(_ & _ & Hq' & _)]; [|lia].
      split; [lia|]. destruct Hq' as [Hq'|(Hq' & _)]; lia. }
    replace (e' <=? 971) with true by (symmetry; apply Z.leb_le; lia).
    auto.
Qed.

(** Truncating a float of value at least 500 gives at least 500. *)
Lemma shiftl_ge_500 m e :
  (-43 <= e /\ 2 ^ 52 <= m) \/ (e = -44 /\ 500 * 2 ^ 44 <= m) ->
  500 <= Z.shiftl m e.
Proof.
  intros [[He Hm]|[-> Hm]].
  - destruct (Z_lt_le_dec e 0) as [Hn|Hp].
    + rewrite Z.shiftl_div_pow2 by lia.
      apply Z.div_le_lower_bound; [apply Z.pow_pos_nonneg; lia|].
      assert (2 ^ (- e) <= 2 ^ 43) by (apply Z.pow_le_mono_r; lia). lia.
    + rewrite Z.shiftl_mul_pow2 by assumption.
      assert (0 < 2 ^ e) by (apply Z.pow_pos_nonneg; lia). nia.
  - rewrite Z.shiftl_div_pow2 by lia.
    apply Z.div_le_lower_bound; lia.
Qed.

(** Adding 500 to a float in the range of [mul_a_spec] gives a finite
    float whose integer part is at least 500. *)
Lemma add_500_spec m2 e2 :
  2 ^ 52 <= Z.pos m2 < 2 ^ 53 -> -53 <= e2 <= 971 ->
  (e2 <= 970 \/ Z.pos m2 <= 13 * 2 ^ 49) ->
  exists m e,
    SFadd 53 1024 (S754_finite false m2 e2)
      (S754_finite false (500 * 2 ^ 44) (-44)) = S754_finite false m e /\
    500 <= Z.shiftl (Z.pos m) e.
Proof.
  intros Hm He Hv. cbn [SFadd cond_Zopp].
  set (ez := Z.min e2 (-44)).
  pose proof (shl_align_spec m2 e2 ez) as [_ Ha].
  pose proof (shl_align_spec (500 * 2 ^ 44) (-44) ez) as [_ Hb].
  set (ma := fst (shl_align m2 e2 ez)) in *.
  set (mb := fst (shl_align (500 * 2 ^ 44) (-44) ez)) in *.
  replace (Z.min e2 ez) with ez in Ha by (unfold ez; lia).
  replace (Z.min (-44) ez) with ez in Hb by (unfold ez; lia).
  change (Z.pos (500 * 2 ^ 44)) with (500 * 2 ^ 44) in Hb.
  change (Z.pos ma + Z.pos mb) with (Z.pos (ma + mb)).
  cbn [binary_normalize]. unfold binary_round.
  set (S := (ma + mb)%positive).
  assert (HS : Z.pos S = Z.pos ma + Z.pos mb) by reflexivity.
  pose proof (digits2_bounds S) as Hd. set (d := Z.pos (digits2_pos S)) in *.
  set (j := -44 - ez) in *.
  assert (Hj : 0 <= j <= 9) by (unfold j, ez; lia).
  assert (Hpj : 0 < 2 ^ j) by (apply Z.pow_pos_nonneg; lia).
  assert (Hpa : 0 < 2 ^ (e2 - ez)) by (apply Z.pow_pos_nonneg; unfold ez; lia).
  assert (HSb : 500 * 2 ^ 44 * 2 ^ j <= Z.pos S) by lia.
  assert (Hdj : 52 + j < d).
  { apply (digits_ge (Z.pos S)); try lia. rewrite Z.pow_add_r by lia. lia. }
  (* no left shift is needed: the sum has at least 53 bits *)
  pose proof (shl_align_spec S ez (fexp 53 1024 (d + ez))) as [Hez Hmz].
  destruct (shl_align S ez (fexp 53 1024 (d + ez))) as [mz ez'].
  cbn [fst snd] in Hez, Hmz. rewrite fexp64_eq in Hez, Hmz.
  replace (Z.min ez (Z.max (d + ez - 53) (-1074))) with ez in Hez, Hmz by (unfold ez; lia).
  rewrite Z.sub_diag, Z.pow_0_r, Z.mul_1_r in Hmz.
  assert (mz = S) by congruence. subst mz ez'.
  destruct (binary_round_aux_spec false S ez d ltac:(unfold ez; lia) Hd)
    as (m' & e' & E & Hc & Hup).
  rewrite E. replace (Z.max 0 (d - 53)) with (d - 53) in Hc by lia.
  pose proof (div_pow2_lower (Z.pos S) d ltac:(lia) (proj1 Hd)) as Hq52.
  (* the sum stays below the overflow threshold *)
  assert (Hov : e' <= 971).
  { destruct (Z_le_gt_dec (-44) e2) as [Hbig|Hsmall].
    - assert (Hez : ez = -44) by (unfold ez; lia).
      assert (HSu : Z.pos S < 2 ^ 1068 - 2 ^ 1015).
      { assert (Hj0 : 2 ^ j = 1) by (unfold j; rewrite Hez; reflexivity).
        rewrite HS, Ha, Hb, Hez, Hj0.
        destruct Hv as [Hv|Hv].
        - assert (2 ^ (e2 - -44) <= 2 ^ 1014) by (apply Z.pow_le_mono_r; lia).
          assert (Z.pos m2 * 2 ^ (e2 - -44) <= 2 ^ 53 * 2 ^ 1014)
            by (apply Z.mul_le_mono_nonneg; lia).
          lia.
        - assert (2 ^ (e2 - -44) <= 2 ^ 1015) by (apply Z.pow_le_mono_r; lia).
          assert (Z.pos m2 * 2 ^ (e2 - -44) <= 13 * 2 ^ 49 * 2 ^ 1015)
            by (apply Z.mul_le_mono_nonneg; lia).
          lia. }
      assert (Hd2 : d <= 1068) by (apply (digits_le (Z.pos S) d 1068); lia).
      destruct Hc as [(He' & _)|(He' & _ & Hq & Hk & _)]; [lia|].
      destruct (Z.eq_dec d 1068) as [Hd3|]; [|lia].
      rewrite Hd3 in Hq. change (1068 - 53) with 1015 in Hq.
      pose proof (Z.mul_div_le (Z.pos S) (2 ^ 1015) ltac:(lia)). lia.
    - assert (Hez : ez = e2) by (unfold ez; lia).
      assert (HSu : Z.pos S < 2 ^ 63).
      { rewrite HS, Ha, Hb, Hez, Z.sub_diag. change (2 ^ 0) with 1.
        assert (2 ^ j <= 2 ^ 9) by (apply Z.pow_le_mono_r; lia). lia. }
      assert (Hd2 : d <= 63) by (apply (digits_le (Z.pos S) d 63); lia).
      destruct Hc as [(He' & _)|(He' & _)]; lia. }
  replace (e' <=? 971) with true by (symmetry; apply Z.leb_le; lia).
  exists m', e'. split; [reflexivity|].
  apply shiftl_ge_500.
  destruct Hc as [(He' & Hm' & Hq)|(He' & Hm' & _)].
  - assert (Hqm : Z.pos S / 2 ^ (d - 53) <= Z.pos m') by (destruct Hq as [Hq|(Hq & _)]; lia).
    destruct (Z.eq_dec (d - 53) j) as [Hkj|Hkj].
    + right. split; [unfold j in *; lia|].
      etransitivity; [|apply Hqm]. rewrite Hkj.
      apply Z.div_le_lower_bound; lia.
    + left. split; [unfold j in *; lia|]. lia.
  - left. split; [unfold j in *; lia|]. rewrite Hm'. lia.
Qed.

(* ===================================================================== *)
(** * The parameter tables                                                *)
(* ===================================================================== *)

Lemma result_bind_ok {A B} (x : A) (k : A -> result B) : (Ok x ≫= k) = k x.
Proof. reflexivity. Qed.

Lemma float_of_int_finite n m e :
  binary_normalize 53 1024 n 0 false = S754_finite false m e ->
  float_of_int n = Ok (S754_finite false m e).
Proof. intros H. unfold float_of_int, prec, emax. rewrite H. reflexivity. Qed.

(** Membership in the radius table, by cases. *)
Lemma RADII_cases (P : Z -> Prop) :
  P 24 -> P 32 -> P 40 -> P 48 -> P 56 -> P 64 -> P 72 -> P 80 -> P 88 ->
  P 96 -> P 104 -> P 112 -> P 120 ->
  forall radius, radius ∈ RADII -> P radius.
Proof.
  intros. unfold RADII in *.
  repeat match goal with
  | H : _ ∈ _ :: _ |- _ => apply elem_of_cons in H as [->|H]; [assumption|]
  end.
  apply elem_of_nil in H12. contradiction.
Qed.

(** The module-level table holds the thirteen values of
    [diverse_table]. *)
Lemma DIVERSE_MAP_table : DIVERSE_MAP = Ok diverse_table.
Proof. vm_compute. reflexivity. Qed.

(** C1. For every radius of the table, [calculate_diverse] returns, and
    [DIVERSE_MAP] stores, the value of
    [min(int(0.8125*(radius-64)^2+500), 1800)] computed over the exact
    rationals. *)
Theorem diverse_matches_formula radius :
  radius ∈ RADII ->
  calculate_diverse radius = Ok (Spec.diverse_formula radius) /\
  exists dm, DIVERSE_MAP = Ok dm /\ dm !! radius = Some (Spec.diverse_formula radius).
Proof.
  revert radius. apply RADII_cases;
    (split; [vm_compute; reflexivity|];
     eexists; split; [apply DIVERSE_MAP_table|vm_compute; reflexivity]).
Qed.

Lemma diverse_matches_formula_witness :
  24 ∈ RADII /\
  calculate_diverse 24 = Ok (Spec.diverse_formula 24) /\
  exists dm, DIVERSE_MAP = Ok dm /\ dm !! 24 = Some (Spec.diverse_formula 24).
Proof.
  assert (H : 24 ∈ RADII) by (unfold RADII; apply elem_of_cons; left; reflexivity).
  split; [exact H|]. exact (diverse_matches_formula 24 H).
Defined.

(** C2, as stated, fails: the steps of the radius list are uniform, also
    at the top of the range. *)
Lemma RADII_steps_not_non_uniform : ~ Spec.non_uniform RADII.
Proof.
  intros (s1 & s2 & H1 & H2 & Hne).
  assert (Hall : forall s, s ∈ Spec.steps RADII -> s = 8).
  { intros s Hs. cbn in Hs.
    repeat (apply elem_of_cons in Hs as [->|Hs]; [reflexivity|]).
    apply elem_of_nil in Hs. contradiction. }
  rewrite (Hall s1 H1), (Hall s2 H2) in Hne. contradiction.
Qed.

(** C2, amended. The radius list has exactly 13 entries, starts at 24,
    ends at 120, and rises in uniform steps of 8. *)
Theorem RADII_shape :
  length RADII = 13%nat /\
  head RADII = Some 24 /\ last RADII = Some 120 /\
  Spec.steps RADII = replicate 12 8.
Proof. repeat split. Qed.

(** C6. The angle table maps every radius of the list, and every mapped
    angle has the value of one of the documented steps 22.5, 18, 15 and
    11.25. *)
Theorem ANGLE_MAP_total radius :
  radius ∈ RADII ->
  exists angle q v,
    ANGLE_MAP !! radius = Some angle /\ Spec.num_value angle = Some q /\
    v ∈ Spec.angle_steps /\ (q == v)%Q.
Proof.
  assert (H1 : (45 # 2)%Q ∈ Spec.angle_steps) by (apply list_elem_of_here).
  assert (H2 : (18 # 1)%Q ∈ Spec.angle_steps)
    by (apply list_elem_of_further, list_elem_of_here).
  assert (H3 : (15 # 1)%Q ∈ Spec.angle_steps)
    by (do 2 apply list_elem_of_further; apply list_elem_of_here).
  assert (H4 : (45 # 4)%Q ∈ Spec.angle_steps)
    by (do 3 apply list_elem_of_further; apply list_elem_of_here).
  revert radius. apply RADII_cases.
  1-2: exists (Float f22_5); do 2 eexists;
    (split; [vm_compute; reflexivity|split; [reflexivity|split; [exact H1|reflexivity]]]).
  1-3: exists (Int 18); do 2 eexists;
    (split; [vm_compute; reflexivity|split; [reflexivity|split; [exact H2|reflexivity]]]).
  1-4: exists (Int 15); do 2 eexists;
    (split; [vm_compute; reflexivity|split; [reflexivity|split; [exact H3|reflexivity]]]).
  all: exists (Float f11_25); do 2 eexists;
    (split; [vm_compute; reflexivity|split; [reflexivity|split; [exact H4|reflexivity]]]).
Qed.

Lemma ANGLE_MAP_total_witness :
  96 ∈ RADII /\
  exists angle q v,
    ANGLE_MAP !! 96 = Some angle /\ Spec.num_value angle = Some q /\
    v ∈ Spec.angle_steps /\ (q == v)%Q.
Proof.
  assert (H : 96 ∈ RADII)
    by (unfold RADII; do 9 apply list_elem_of_further; apply list_elem_of_here).
  split; [exact H|]. exact (ANGLE_MAP_total 96 H).
Defined.

Lemma v_shape_check_all r1 r2 :
  r1 ∈ RADII -> r2 ∈ RADII -> v_shape_check r1 r2 = true.
Proof.
  intros H1 H2. revert r1 H1.
  apply RADII_cases; revert r2 H2; apply RADII_cases; vm_compute; reflexivity.
Qed.

(** C8. Over the radii of the list the diverse value is non-increasing
    below 64, equals its minimum 500 at 64, and is non-decreasing above 64,
    never exceeding the clamp 1800. *)
Theorem diverse_v_shape r1 r2 :
  r1 ∈ RADII -> r2 ∈ RADII -> r1 <= r2 ->
  exists d1 d2,
    calculate_diverse r1 = Ok d1 /\ calculate_diverse r2 = Ok d2 /\
    calculate_diverse 64 = Ok 500 /\ 500 <= d1 <= 1800 /\
    (r2 <= 64 -> d2 <= d1) /\ (64 <= r1 -> d1 <= d2).
Proof.
  intros H1 H2 Hle. pose proof (v_shape_check_all r1 r2 H1 H2) as Hc.
  unfold v_shape_check in Hc.
  destruct (calculate_diverse r1) as [d1|]; [|discriminate].
  destruct (calculate_diverse r2) as [d2|]; [|discriminate].
  destruct (calculate_diverse 64) as [d0|]; [|discriminate].
  exists d1, d2.
  repeat (apply andb_prop in Hc as [Hc ?]).
  assert (d0 = 500) by lia. subst d0.
  repeat split; lia.
Qed.

Lemma diverse_v_shape_witness :
  (40 ∈ RADII /\ 56 ∈ RADII /\ 40 <= 56) /\
  exists d1 d2,
    calculate_diverse 40 = Ok d1 /\ calculate_diverse 56 = Ok d2 /\
    calculate_diverse 64 = Ok 500 /\ 500 <= d1 <= 1800 /\
    (56 <= 64 -> d2 <= d1) /\ (64 <= 40 -> d1 <= d2).
Proof.
  assert (H1 : 40 ∈ RADII)
    by (unfold RADII; do 2 apply list_elem_of_further; apply list_elem_of_here).
  assert (H2 : 56 ∈ RADII)
    by (unfold RADII; do 4 apply list_elem_of_further; apply list_elem_of_here).
  assert (H3 : 40 <= 56) by lia.
  split; [auto|]. exact (diverse_v_shape 40 56 H1 H2 H3).
Defined.

(** C9. [calculate_diverse] is symmetric about the vertex 64: the calls at
    [64 + k] and [64 - k] give the same result for every integer [k]. *)
Theorem calculate_diverse_symmetric k :
  calculate_diverse (64 + k) = calculate_diverse (64 - k).
Proof.
  unfold calculate_diverse, vertex.
  replace ((64 + k - 64) ^ 2) with ((64 - k - 64) ^ 2) by lia.
  reflexivity.
Qed.

(** C10, as stated, fails: beyond the float range the conversion of the
    squared distance raises instead of returning a value. *)
Lemma calculate_diverse_overflow :
  calculate_diverse (64 + 2 ^ 512) = Raise OverflowError.
Proof. vm_compute. reflexivity. Qed.

(** C10, amended. For every integer radius whose squared distance from 64
    converts to a float, that is [(radius - 64)^2 < 2^1024 - 2^970],
    [calculate_diverse] returns a value that is at least 500 and at most
    1800. *)
Theorem calculate_diverse_bounds radius :
  (radius - 64) ^ 2 < 2 ^ 1024 - 2 ^ 970 ->
  exists d, calculate_diverse radius = Ok d /\ 500 <= d <= 1800.
Proof.
  intros Hn. unfold calculate_diverse, vertex, maximum.
  set (n := (radius - 64) ^ 2) in *.
  assert (Hn0 : 0 <= n) by (unfold n; rewrite Z.pow_2_r; apply Z.square_nonneg).
  destruct (Z.eq_dec n 0) as [->|Hnz].
  - exists 500. split; [reflexivity|lia].
  - destruct (binary_normalize_int n) as (m & e & E & Hm & He); [lia|].
    unfold float_mul_int. rewrite (float_of_int_finite _ _ _ E), result_bind_ok.
    destruct (mul_a_spec m e Hm He) as (m2 & e2 & E2 & Hm2 & He2 & Hv).
    unfold float_mul, prec, emax. rewrite E2.
    change (mret (S754_finite false m2 e2)) with (Ok (S754_finite false m2 e2)).
    rewrite result_bind_ok.
    unfold float_add_int. rewrite float_of_int_500, result_bind_ok.
    destruct (add_500_spec m2 e2 Hm2 He2 Hv) as (m3 & e3 & E3 & H500).
    unfold float_add, prec, emax. rewrite E3.
    change (mret (S754_finite false m3 e3)) with (Ok (S754_finite false m3 e3)).
    rewrite result_bind_ok. cbn [int_of_float cond_Zopp]. rewrite result_bind_ok.
    eexists. split; [reflexivity|]. lia.
Qed.

Lemma calculate_diverse_bounds_witness :
  (2 ^ 500 - 64) ^ 2 < 2 ^ 1024 - 2 ^ 970 /\
  exists d, calculate_diverse (2 ^ 500) = Ok d /\ 500 <= d <= 1800.
Proof.
  assert (H : (2 ^ 500 - 64) ^ 2 < 2 ^ 1024 - 2 ^ 970) by (vm_compute; reflexivity).
  split; [exact H|]. exact (calculate_diverse_bounds (2 ^ 500) H).
Defined.

(** Beyond the threshold of C10 the call raises: the bound on the radius
    cannot be relaxed. *)
Lemma calculate_diverse_raises radius :
  2 ^ 1024 - 2 ^ 970 <= (radius - 64) ^ 2 ->
  calculate_diverse radius = Raise OverflowError.
Proof.
  intros Hn. unfold calculate_diverse, vertex, float_mul_int, float_of_int, prec, emax.
  rewrite (binary_normalize_overflow _ Hn). reflexivity.
Qed.

(* ===================================================================== *)
(** * The drivers                                                         *)
(* ===================================================================== *)

(** One step of a statement sequence. *)
Lemma bind_run {A B} (m : M A) (k : A -> M B) w :
  (m ≫= k) w =
  match m w with
  | (Ok x, w') => k x w'
  | (Raise e, w') => (Raise e, w')
  end.
Proof. reflexivity. Qed.

(** When a call counts as a success. *)
Lemma run_ok_true_iff c timeout b :
  run_ok c timeout b = true <->
  exists o e seconds,
    b = Exits 0 o e seconds /\ seconds <= timeout /\
    (c = true -> is_text o = true /\ is_text e = true).
Proof.
  split.
  - destruct b as [rc o e s|msg]; [|discriminate]. cbn.
    intros H. apply andb_true_iff in H as [H H3]. apply andb_true_iff in H as [H1 H2].
    apply negb_true_iff, Z.ltb_ge in H1. apply Z.eqb_eq in H2. subst rc.
    exists o, e, s. split; [reflexivity|]. split; [assumption|].
    intros ->. cbn in H3. apply andb_true_iff in H3. assumption.
  - intros (o & e & s & -> & Hs & Ht). cbn.
    apply Z.ltb_ge in Hs. rewrite Hs. cbn.
    destruct c; [|reflexivity]. destruct (Ht eq_refl) as [-> ->]. reflexivity.
Qed.

Section DriverFacts.

Variable spawn : list (command * behaviour) -> command -> behaviour.

(** One call of the outer invoker, for every behaviour of the child. *)
Lemma run_generator_outcomes radius angle diverse out v w :
  let cmd := generator_cmd radius angle diverse out v in
  let b := spawn (calls w) cmd in
  let r := run_generator spawn radius angle diverse out v w in
  fst r = Ok (run_ok (negb v) 600 b) /\
  calls (snd r) = calls w ++ [(cmd, b)] /\
  dirs (snd r) = dirs w /\
  stderr (snd r) =
    stderr w ++
    match b with
    | Exits rc o e seconds =>
        if 600 <? seconds then [Line [Lit "Error: Timeout for R"; FInt radius]]
        else if v then
          Inherited e :: (if rc =? 0 then [] else [Line [Lit "Error: "; FOpt None]])
        else
          match o, e with
          | Text _, Text err =>
              if rc =? 0 then []
              else [Line [Lit "Error: "; FOpt (Some (translate_newlines err))]]
          | Undecodable reason, _ | Text _, Undecodable reason =>
              [Line [Lit "Error generating R"; FInt radius; Lit ": ";
                     FExn (UnicodeDecodeError reason)]]
          end
    | LaunchFails msg =>
        [Line [Lit "Error generating R"; FInt radius; Lit ": "; FExn (OSError msg)]]
    end.
Proof.
  intros cmd b r. subst r. unfold run_generator. fold cmd.
  destruct v; run_M; fold cmd; fold b.
  all: destruct b as [rc o e s|msg]; run_M.
  all: try (destruct (600 <? s); run_M).
  all: try (destruct o as [o|ro]; run_M).
  all: try (destruct e as [e|re]; run_M).
  all: try (destruct (rc =? 0); run_M).
  all: rewrite ?app_nil_r, <- ?app_assoc; auto.
Qed.

Lemma failed_none_iff c timeout radii trace :
  length radii = length trace ->
  failed_radii_of c timeout radii trace = [] <->
  forallb (fun cb => run_ok c timeout (snd cb)) trace = true.
Proof.
  unfold failed_radii_of. revert trace.
  induction radii as [|r radii IH]; intros [|cb trace] Hlen; try discriminate.
  - cbn. tauto.
  - cbn [zip zip_with List.filter forallb snd]. injection Hlen as Hlen.
    destruct (run_ok c timeout (snd cb)); cbn [negb andb].
    + apply IH. assumption.
    + cbn. split; discriminate.
Qed.

Lemma generate_loop a dm l :
  forall sc fr w,
  Forall (fun r => is_Some (ANGLE_MAP !! r) /\ is_Some (dm !! r)) l ->
  exists trace w',
    for_fold l (generate_one spawn a dm) (sc, fr) w =
      (Ok (sc + count_ok (negb (verbose a)) 600 trace,
           fr ++ failed_radii_of (negb (verbose a)) 600 l trace), w') /\
    calls w' = calls w ++ trace /\
    dirs w' = dirs w /\
    Forall2 (batch_job a dm) l trace.
Proof.
  induction l as [|radius l IH]; intros sc fr w Hl.
  - exists [], w. cbn. rewrite Z.add_0_r, !app_nil_r. auto.
  - apply Forall_cons in Hl as [[[angle Ha] [diverse Hd]] Hl].
    cbn [for_fold]. rewrite bind_run.
    unfold generate_one at 1. rewrite bind_run.
    unfold getitem at 1. rewrite Ha. cbn [mret M_ret].
    rewrite bind_run. unfold getitem at 1. rewrite Hd. cbn [mret M_ret].
    rewrite bind_run.
    pose proof (run_generator_outcomes radius angle diverse
                  (Some (output_dir a)) (verbose a) w) as (Hr & Hc & Hdir & _).
    set (cmd := generator_cmd radius angle diverse (Some (output_dir a)) (verbose a)) in *.
    set (b := spawn (calls w) cmd) in *.
    destruct (run_generator spawn radius angle diverse (Some (output_dir a))
                (verbose a) w) as [r1 w1].
    cbn [fst snd] in Hr, Hc, Hdir. subst r1.
    destruct (run_ok (negb (verbose a)) 600 b) eqn:Hok; cbn [mret M_ret].
    + destruct (IH (sc + 1) fr w1 Hl) as (trace & w' & Hf & Hcalls & Hdirs & Hjobs).
      exists ((cmd, b) :: trace), w'.
      split; [|split; [|split]].
      * rewrite Hf. unfold count_ok, failed_radii_of.
        cbn [zip zip_with List.filter snd]. rewrite Hok. cbn [negb length].
        rewrite Nat2Z.inj_succ, <- Z.add_1_l, Z.add_assoc. reflexivity.
      * rewrite Hcalls, Hc, <- app_assoc. reflexivity.
      * congruence.
      * constructor; [|assumption]. exists angle, diverse. auto.
    + destruct (IH sc (fr ++ [radius]) w1 Hl) as (trace & w' & Hf & Hcalls & Hdirs & Hjobs).
      exists ((cmd, b) :: trace), w'.
      split; [|split; [|split]].
      * rewrite Hf. unfold count_ok, failed_radii_of.
        cbn [zip zip_with List.filter snd]. rewrite Hok. cbn [negb map fst].
        rewrite <- app_assoc. reflexivity.
      * rewrite Hcalls, Hc, <- app_assoc. reflexivity.
      * congruence.
      * constructor; [|assumption]. exists angle, diverse. auto.
Qed.

Lemma RADII_mapped :
  Forall (fun r => is_Some (ANGLE_MAP !! r) /\ is_Some (diverse_table !! r)) RADII.
Proof. repeat constructor; vm_compute; eauto. Qed.

Lemma batch_main_continues a w :
  dry_run a = false ->
  let r := main spawn a w in
  exists trace,
    calls (snd r) = calls w ++ trace /\
    Forall2 (batch_job a diverse_table) RADII trace /\
    exit_status (fst r) =
      (if forallb (fun cb => run_ok (negb (verbose a)) 600 (snd cb)) trace
       then 0 else 1) /\
    last (stdout (snd r)) =
      Some (Line
        match failed_radii_of (negb (verbose a)) 600 RADII trace with
        | [] => [Lit "All files generated successfully! ✓"]
        | failed =>
            [Lit nl; Lit "Failed radii: ";
             FJoin ", " (map (fun r => [Lit "R"; FInt r]) failed)]
        end).
Proof.
  intros Hdry r. subst r.
  destruct (main spawn a w) as [res w'] eqn:E. cbn [fst snd].
  unfold main in E.
  rewrite DIVERSE_MAP_table, Hdry in E. unfold lift in E. rewrite bind_run in E.
  do 4 (rewrite bind_run in E; unfold print at 1, write_stdout at 1 in E).
  rewrite bind_run in E.
  match type of E with
  | context [for_fold RADII _ _ ?w0] =>
      destruct (generate_loop a diverse_table RADII 0 [] w0 RADII_mapped)
        as (trace & w1 & Hf & Hcalls & Hdirs & Hjobs);
      rewrite Hf in E
  end.
  cbn [calls dirs] in Hcalls, Hdirs.
  exists trace. rewrite app_nil_l in *.
  pose proof (failed_none_iff (negb (verbose a)) 600 RADII trace
                (Forall2_length _ _ _ Hjobs)) as Hiff.
  destruct (failed_radii_of (negb (verbose a)) 600 RADII trace) as [|f fs] eqn:Hfail.
  - rewrite (proj1 Hiff eq_refl). revert E. run_M. intros [= <- <-].
    cbn [calls stdout exit_status]. rewrite Hcalls.
    repeat split; try assumption. apply last_snoc.
  - destruct (forallb _ trace); [destruct Hiff as [_ Hiff]; discriminate (Hiff eq_refl)|].
    revert E. run_M. intros [= <- <-].
    cbn [calls stdout exit_status]. rewrite Hcalls.
    repeat split; try assumption. apply last_snoc.
Qed.



End DriverFacts.

Section GeneratorFacts.

Import generate_stls.

Variable spawn : list (command * behaviour) -> command -> behaviour.
Variable path_exists : path -> bool.

Lemma known_config_params radius angle c diverse :
  c ∈ keys CONFIGURATIONS ->
  exists params, generate_scad_params radius angle c diverse = Ok params.
Proof.
  intros Hc. cbn in Hc.
  repeat (apply elem_of_cons in Hc as [->|Hc]; [eexists; reflexivity|]).
  apply elem_of_nil in Hc. contradiction.
Qed.

(** One call of the inner invoker, for every behaviour of the child. *)
Lemma generate_stl_outcomes scad output_file radius angle c v diverse params w :
  generate_scad_params radius angle c diverse = Ok params ->
  let cmd := Shell (openscad_cmd params output_file scad) in
  let b := spawn (calls w) cmd in
  let r := generate_stl spawn scad output_file radius angle c v diverse w in
  fst r = Ok (job_ok 300 b) /\
  calls (snd r) = calls w ++ [(cmd, b)] /\
  stderr (snd r) =
    stderr w ++
    match b with
    | Exits rc o e seconds =>
        if 300 <? seconds then
          [Line ([Lit "Error: Timeout generating "] ++ path_name output_file)]
        else
          match o, e with
          | Text _, Text err =>
              if rc =? 0 then []
              else [Line ([Lit "Error generating "] ++ path_name output_file ++
                          [Lit ":"]);
                    Line [FOpt (Some (translate_newlines err))]]
          | Undecodable reason, _ | Text _, Undecodable reason =>
              [Line ([Lit "Error generating "] ++ path_name output_file ++
                     [Lit ": "; FExn (UnicodeDecodeError reason)])]
          end
    | LaunchFails msg =>
        [Line ([Lit "Error generating "] ++ path_name output_file ++
               [Lit ": "; FExn (OSError msg)])]
    end.
Proof.
  intros Hp cmd b r. subst r. unfold generate_stl. rewrite Hp.
  destruct v; run_M; fold cmd; fold b.
  all: destruct b as [rc o e s|msg]; run_M.
  all: try (destruct (300 <? s); run_M).
  all: try (destruct o as [o|ro]; run_M).
  all: try (destruct e as [e|re]; run_M).
  all: try (destruct (rc =? 0); run_M).
  all: rewrite ?app_nil_r, <- ?app_assoc; auto.
Qed.

Lemma count_ok_app c timeout t1 t2 :
  count_ok c timeout (t1 ++ t2) = count_ok c timeout t1 + count_ok c timeout t2.
Proof.
  unfold count_ok. rewrite List.filter_app, length_app. lia.
Qed.

Lemma len_calls_app t1 t2 : len_calls (t1 ++ t2) = len_calls t1 + len_calls t2.
Proof. unfold len_calls. rewrite length_app. lia. Qed.

Lemma count_ok_all c timeout trace :
  0 <= count_ok c timeout trace <= len_calls trace /\
  (count_ok c timeout trace <? len_calls trace) =
  negb (forallb (fun cb => run_ok c timeout (snd cb)) trace).
Proof.
  unfold count_ok, len_calls. induction trace as [|cb trace [IH1 IH2]].
  - cbn. split; [lia|reflexivity].
  - cbn [List.filter forallb length].
    destruct (run_ok c timeout (snd cb)); cbn [length andb].
    + split; [lia|]. rewrite <- IH2.
      repeat match goal with |- context [?x <? ?y] => destruct (Z.ltb_spec x y) end;
        try reflexivity; lia.
    + split; [lia|]. cbn [negb]. apply Z.ltb_lt. lia.
Qed.

Lemma config_loop scad out radius angle v diverse cs :
  forall sc tc w,
  Forall (fun c => c ∈ keys CONFIGURATIONS) cs ->
  exists trace w',
    for_fold cs (generate_config spawn scad out radius angle v diverse) (sc, tc) w =
      (Ok (sc + count_ok true 300 trace, tc + len_calls trace), w') /\
    calls w' = calls w ++ trace /\
    Forall2 (stl_job scad out angle diverse) (map (pair radius) cs) trace.
Proof.
  induction cs as [|c cs IH]; intros sc tc w Hcs.
  - exists [], w. cbn. rewrite !Z.add_0_r, app_nil_r. auto.
  - apply Forall_cons in Hcs as [Hc Hcs].
    destruct (known_config_params radius angle c diverse Hc) as [params Hp].
    cbn [for_fold]. rewrite bind_run.
    unfold generate_config at 1. rewrite bind_run.
    pose proof (generate_stl_outcomes scad (stl_path out radius c) radius angle c v
                  diverse params w Hp) as (Hr & Hcalls & _).
    set (cmd := Shell (openscad_cmd params (stl_path out radius c) scad)) in *.
    set (b := spawn (calls w) cmd) in *.
    destruct (generate_stl spawn scad (stl_path out radius c) radius angle c v diverse w)
      as [r1 w1].
    cbn [fst snd] in Hr, Hcalls. subst r1.
    assert (Hjob : stl_job scad out angle diverse (radius, c) (cmd, b))
      by (exists params; auto).
    change (job_ok 300 b) with (run_ok true 300 b).
    destruct (run_ok true 300 b) eqn:Hok.
    + cbn [mret M_ret].
      destruct (IH (sc + 1) (tc + 1) w1 Hcs) as (trace & w' & Hf & Hc' & Hjobs).
      exists ((cmd, b) :: trace), w'. split; [|split].
      * rewrite Hf. unfold count_ok, len_calls. cbn [List.filter snd length].
        rewrite Hok. cbn [length]. rewrite !Nat2Z.inj_succ, <- !Z.add_1_l, !Z.add_assoc.
        reflexivity.
      * rewrite Hc', Hcalls, <- app_assoc. reflexivity.
      * cbn [map]. constructor; assumption.
    + rewrite bind_run. unfold eprint at 1, write_stderr at 1. cbn [mret M_ret].
      match goal with
      | |- context [for_fold cs _ _ ?w0] =>
          destruct (IH sc (tc + 1) w0 Hcs) as (trace & w' & Hf & Hc' & Hjobs)
      end.
      exists ((cmd, b) :: trace), w'. split; [|split].
      * rewrite Hf. unfold count_ok, len_calls. cbn [List.filter snd length].
        rewrite Hok. rewrite !Nat2Z.inj_succ, <- !Z.add_1_l, !Z.add_assoc.
        reflexivity.
      * rewrite Hc'. cbn [calls]. rewrite Hcalls, <- app_assoc. reflexivity.
      * cbn [map]. constructor; assumption.
Qed.

Lemma keys_known : Forall (fun c => c ∈ keys CONFIGURATIONS) (keys CONFIGURATIONS).
Proof. apply Forall_forall. auto. Qed.

Lemma selected_known a :
  config_valid a -> Forall (fun c => c ∈ keys CONFIGURATIONS) (selected a).
Proof.
  unfold config_valid, selected. intros Hv.
  destruct (config a) as [c|]; [|apply keys_known].
  destruct c; cbn [truthy]; [apply keys_known|].
  constructor; [assumption|constructor].
Qed.

Lemma generate_radius_jobs a radius ts tg w :
  config_valid a ->
  exists trace w',
    generate_radius spawn a radius (ts, tg) w =
      (Ok (ts + count_ok true 300 trace, tg + len_calls trace), w') /\
    calls w' = calls w ++ trace /\
    Forall2 (stl_job (scad_file a) (output_dir a) (angle a) (diverse a))
      (map (pair radius) (selected a)) trace.
Proof.
  intros Hv. pose proof (selected_known a Hv) as Hsel.
  unfold generate_radius. rewrite bind_run.
  set (pre := if verbose a then _ else _).
  assert (Hpre : exists w0, pre w = (Ok tt, w0) /\ calls w0 = calls w).
  { unfold pre. destruct (verbose a); run_M; eauto. }
  destruct Hpre as (w0 & -> & Hw0). clearbody pre.
  unfold selected in *. destruct (truthy (config a)) as [c|].
  - apply Forall_cons in Hsel as [Hc _].
    destruct (known_config_params radius (angle a) c (diverse a) Hc) as [params Hp].
    rewrite bind_run.
    pose proof (generate_stl_outcomes (scad_file a) (stl_path (output_dir a) radius c)
                  radius (angle a) c (verbose a) (diverse a) params w0 Hp)
      as (Hr & Hcalls & _).
    set (cmd := Shell (openscad_cmd params (stl_path (output_dir a) radius c) (scad_file a))) in *.
    set (b := spawn (calls w0) cmd) in *.
    destruct (generate_stl spawn (scad_file a) (stl_path (output_dir a) radius c) radius
                (angle a) c (verbose a) (diverse a) w0) as [r1 w1].
    cbn [fst snd] in Hr, Hcalls. subst r1.
    exists [(cmd, b)], w1. cbn [mret M_ret]. split; [|split].
    + unfold count_ok, len_calls. cbn [List.filter snd length].
      change (job_ok 300 b) with (run_ok true 300 b);
      destruct (run_ok true 300 b); cbn -[Z.add]; rewrite ?Z.add_0_r; reflexivity.
    + congruence.
    + constructor; [|constructor]. exists params. auto.
  - rewrite bind_run. unfold generate_all_configs. rewrite bind_run.
    unfold mkdir at 1.
    match goal with
    | |- context [for_fold _ _ _ ?w1] =>
        destruct (config_loop (scad_file a) (output_dir a) radius (angle a) (verbose a)
                    (diverse a) (keys CONFIGURATIONS) 0 0 w1 Hsel)
          as (trace & w' & Hf & Hc' & Hjobs)
    end.
    rewrite Hf. cbn [mret M_ret]. exists trace, w'. split; [|split].
    + rewrite !Z.add_0_l. reflexivity.
    + rewrite Hc'. cbn [calls]. congruence.
    + assumption.
Qed.

Lemma radius_loop a radii :
  config_valid a ->
  forall ts tg w,
  exists trace w',
    for_fold radii (generate_radius spawn a) (ts, tg) w =
      (Ok (ts + count_ok true 300 trace, tg + len_calls trace), w') /\
    calls w' = calls w ++ trace /\
    Forall2 (stl_job (scad_file a) (output_dir a) (angle a) (diverse a))
      (flat_map (fun r => map (pair r) (selected a)) radii) trace.
Proof.
  intros Hv. induction radii as [|radius radii IH]; intros ts tg w.
  - exists [], w. cbn. rewrite !Z.add_0_r, app_nil_r. auto.
  - cbn [for_fold flat_map]. rewrite bind_run.
    destruct (generate_radius_jobs a radius ts tg w Hv) as (t1 & w1 & -> & Hc1 & Hj1).
    destruct (IH (ts + count_ok true 300 t1) (tg + len_calls t1) w1)
      as (t2 & w2 & -> & Hc2 & Hj2).
    exists (t1 ++ t2), w2. split; [|split].
    + rewrite count_ok_app, len_calls_app, !Z.add_assoc. reflexivity.
    + rewrite Hc2, Hc1, <- app_assoc. reflexivity.
    + apply Forall2_app; assumption.
Qed.

(** The probe for the tool, when it reports the return code zero. *)
Lemma check_openscad_ok w :
  exit_code (spawn (calls w) which_openscad) = Some 0 ->
  check_openscad spawn w =
    (Ok tt,
     {| calls := calls w ++ [(which_openscad, spawn (calls w) which_openscad)];
        dirs := dirs w; stdout := stdout w; stderr := stderr w |}).
Proof.
  intros Hcode. unfold check_openscad. run_M.
  destruct (spawn (calls w) which_openscad) as [rc [o|ro] [e|re] s|msg];
    try discriminate.
  injection Hcode as ->. reflexivity.
Qed.

Lemma generate_main_continues a w :
  path_exists (scad_file a) = true ->
  exit_code (spawn (calls w) which_openscad) = Some 0 ->
  config_valid a ->
  let r := main spawn path_exists a w in
  exists trace,
    calls (snd r) =
      calls w ++ (which_openscad, spawn (calls w) which_openscad) :: trace /\
    Forall2 (stl_job (scad_file a) (output_dir a) (angle a) (diverse a))
      (jobs a) trace /\
    exit_status (fst r) =
      (if forallb (fun cb => job_ok 300 (snd cb)) trace then 0 else 1).
Proof.
  intros Hex Hcode Hv r. subst r.
  destruct (main spawn path_exists a w) as [res w'] eqn:E. cbn [fst snd].
  unfold main in E. rewrite Hex in E. cbn [negb] in E.
  rewrite bind_run in E. cbn [mret M_ret] in E.
  rewrite bind_run, (check_openscad_ok w Hcode) in E.
  rewrite bind_run in E.
  match type of E with
  | context [for_fold _ _ _ ?w0] =>
      destruct (radius_loop a (radius a) Hv 0 0 w0) as (trace & w1 & Hf & Hc & Hj);
      rewrite Hf in E
  end.
  cbn [calls] in Hc. exists trace.
  destruct (count_ok_all true 300 trace) as [_ Hlt].
  revert E. rewrite !Z.add_0_l. run_M. rewrite Hlt.
  destruct (forallb _ trace); cbn [negb]; intros [= <- <-]; cbn [calls exit_status].
  all: rewrite Hc, <- app_assoc; repeat split; assumption.
Qed.

Lemma check_fails_before_jobs a w :
  path_exists (scad_file a) = false \/
  (exists rc, exit_code (spawn (calls w) which_openscad) = Some rc /\ rc <> 0) ->
  let r := main spawn path_exists a w in
  fst r = Raise (SystemExit 1) /\
  calls (snd r) =
    calls w ++ (if path_exists (scad_file a)
                then [(which_openscad, spawn (calls w) which_openscad)]
                else []) /\
  dirs (snd r) = dirs w /\
  stdout (snd r) = stdout w /\
  exists report, report <> [] /\ stderr (snd r) = stderr w ++ report.
Proof.
  intros H r. subst r. unfold main.
  destruct (path_exists (scad_file a)) eqn:Hex.
  - destruct H as [H|(rc & Hrc & Hnz)]; [discriminate|].
    unfold check_openscad. run_M.
    destruct (spawn (calls w) which_openscad) as [rc' [o|ro] [e|re] s|msg];
      try discriminate.
    injection Hrc as ->. run_M.
    replace (rc =? 0) with false by (symmetry; apply Z.eqb_neq; assumption).
    cbn. repeat split; try reflexivity.
    eexists. split; [|rewrite <- app_assoc; reflexivity]. discriminate.
  - run_M. rewrite app_nil_r. repeat split; try reflexivity.
    eexists. split; [|reflexivity]. discriminate.
Qed.

End GeneratorFacts.

(* ===================================================================== *)
(** * The batch claims                                                    *)
(* ===================================================================== *)

(** C3. A failing job does not abort the batch.  The outer driver calls
    the generator once for every radius of the list, in order, whatever
    the children do; it reports the radii whose job failed, and exits
    with 0 when every job succeeded and with 1 otherwise.  The inner
    generator likewise runs every radius with every selected
    configuration and exits with 0 exactly when all of them succeeded. *)
Theorem batch_continues_after_failure spawn path_exists
    (a : args) (g : generate_stls.args) (w : world) :
  dry_run a = false ->
  path_exists (generate_stls.scad_file g) = true ->
  exit_code (spawn (calls w) generate_stls.which_openscad) = Some 0 ->
  config_valid g ->
  (let r := main spawn a w in
   exists trace,
     calls (snd r) = calls w ++ trace /\
     Forall2 (batch_job a diverse_table) RADII trace /\
     exit_status (fst r) =
       (if forallb (fun cb => run_ok (negb (verbose a)) 600 (snd cb)) trace
        then 0 else 1) /\
     last (stdout (snd r)) =
       Some (Line
         match failed_radii_of (negb (verbose a)) 600 RADII trace with
         | [] => [Lit "All files generated successfully! ✓"]
         | failed =>
             [Lit nl; Lit "Failed radii: ";
              FJoin ", " (map (fun r => [Lit "R"; FInt r]) failed)]
         end)) /\
  (let r := generate_stls.main spawn path_exists g w in
   exists trace,
     calls (snd r) =
       calls w ++ (generate_stls.which_openscad,
                   spawn (calls w) generate_stls.which_openscad) :: trace /\
     Forall2 (stl_job (generate_stls.scad_file g) (generate_stls.output_dir g)
                (generate_stls.angle g) (generate_stls.diverse g))
       (jobs g) trace /\
     exit_status (fst r) =
       (if forallb (fun cb => job_ok 300 (snd cb)) trace then 0 else 1)).
Proof.
  intros Hdry Hex Hwhich Hv. split.
  - apply batch_main_continues. assumption.
  - apply generate_main_continues; assumption.
Qed.

Lemma batch_continues_after_failure_witness :
  (dry_run (batch_args false) = false /\
   all_exist (generate_stls.scad_file stl_args) = true /\
   exit_code (third_fails (calls empty_world) generate_stls.which_openscad) = Some 0 /\
   config_valid stl_args) /\
  (let r := main third_fails (batch_args false) empty_world in
   exists trace,
     calls (snd r) = calls empty_world ++ trace /\
     Forall2 (batch_job (batch_args false) diverse_table) RADII trace /\
     exit_status (fst r) =
       (if forallb (fun cb => run_ok (negb (verbose (batch_args false))) 600 (snd cb))
            trace
        then 0 else 1) /\
     last (stdout (snd r)) =
       Some (Line
         match failed_radii_of (negb (verbose (batch_args false))) 600 RADII trace with
         | [] => [Lit "All files generated successfully! ✓"]
         | failed =>
             [Lit nl; Lit "Failed radii: ";
              FJoin ", " (map (fun r => [Lit "R"; FInt r]) failed)]
         end)) /\
  (let r := generate_stls.main third_fails all_exist stl_args empty_world in
   exists trace,
     calls (snd r) =
       calls empty_world ++
       (generate_stls.which_openscad,
        third_fails (calls empty_world) generate_stls.which_openscad) :: trace /\
     Forall2 (stl_job (generate_stls.scad_file stl_args)
                (generate_stls.output_dir stl_args)
                (generate_stls.angle stl_args) (generate_stls.diverse stl_args))
       (jobs stl_args) trace /\
     exit_status (fst r) =
       (if forallb (fun cb => job_ok 300 (snd cb)) trace then 0 else 1)).
Proof.
  assert (H1 : dry_run (batch_args false) = false) by reflexivity.
  assert (H2 : all_exist (generate_stls.scad_file stl_args) = true) by reflexivity.
  assert (H3 : exit_code (third_fails (calls empty_world)
                            generate_stls.which_openscad) = Some 0) by reflexivity.
  assert (H4 : config_valid stl_args) by exact I.
  split; [auto|].
  exact (batch_continues_after_failure third_fails all_exist (batch_args false)
           stl_args empty_world H1 H2 H3 H4).
Defined.

(** C4, as stated, fails: an invocation has a fourth outcome.  When the
    child cannot be started it neither exits nor times out, and the
    invoker reports an error of its own kind and returns False. *)
Lemma single_job_fourth_outcome :
  let cmd := generator_cmd 24 (Float f22_5) 1800 (Some (Path "out")) false in
  let r := run_generator no_launch 24 (Float f22_5) 1800 (Some (Path "out")) false
             empty_world in
  ~ Spec.three_outcomes 600 (no_launch [] cmd) /\
  fst r = Ok false /\
  last (stdout (snd r)) = Some (Line [Lit "✗ (error)"]).
Proof.
  cbn zeta. split; [|split; reflexivity].
  unfold no_launch.
  intros [(o & e & s & H & _)|[(rc & o & e & s & H & _)|(rc & o & e & s & H & _)]];
    discriminate.
Qed.

(** C4, amended.  The [try] block of a single-job invocation lets no
    exception of the child call escape, and it has four outcomes.  It
    returns True exactly when the child exits with code zero within the
    timeout and, where its streams were captured, they are text.  It
    returns False when the child exits nonzero, reporting the captured
    error text, line ends translated, when the streams were captured and
    None when they were not; False on a timeout; and False when the call
    raises any other exception, because the child cannot be started or
    because its captured output is not text.  This holds for the outer
    invoker (timeout 600, streams captured unless verbose) and for the
    inner one (timeout 300, streams always captured); the inner one
    raises ValueError for an unknown configuration before it enters its
    [try] block. *)
Theorem single_job_outcomes spawn radius angle fangle diverse odiverse out v
    scad output_file c (w : world) :
  (let cmd := generator_cmd radius angle diverse out v in
   let b := spawn (calls w) cmd in
   let r := run_generator spawn radius angle diverse out v w in
   fst r = Ok (run_ok (negb v) 600 b) /\
   calls (snd r) = calls w ++ [(cmd, b)] /\
   stderr (snd r) =
     stderr w ++
     match b with
     | Exits rc o e seconds =>
         if 600 <? seconds then [Line [Lit "Error: Timeout for R"; FInt radius]]
         else if v then
           Inherited e :: (if rc =? 0 then [] else [Line [Lit "Error: "; FOpt None]])
         else
           match o, e with
           | Text _, Text err =>
               if rc =? 0 then []
               else [Line [Lit "Error: "; FOpt (Some (translate_newlines err))]]
           | Undecodable reason, _ | Text _, Undecodable reason =>
               [Line [Lit "Error generating R"; FInt radius; Lit ": ";
                      FExn (UnicodeDecodeError reason)]]
           end
     | LaunchFails msg =>
         [Line [Lit "Error generating R"; FInt radius; Lit ": "; FExn (OSError msg)]]
     end) /\
  match generate_stls.generate_scad_params radius fangle c odiverse with
  | Raise x =>
      generate_stls.generate_stl spawn scad output_file radius fangle c v odiverse w =
        (Raise x, w)
  | Ok params =>
      let cmd := Shell (generate_stls.openscad_cmd params output_file scad) in
      let b := spawn (calls w) cmd in
      let r := generate_stls.generate_stl spawn scad output_file radius fangle c v
                 odiverse w in
      fst r = Ok (job_ok 300 b) /\
      calls (snd r) = calls w ++ [(cmd, b)] /\
      stderr (snd r) =
        stderr w ++
        match b with
        | Exits rc o e seconds =>
            if 300 <? seconds then
              [Line ([Lit "Error: Timeout generating "] ++ path_name output_file)]
            else
              match o, e with
              | Text _, Text err =>
                  if rc =? 0 then []
                  else [Line ([Lit "Error generating "] ++ path_name output_file ++
                              [Lit ":"]);
                        Line [FOpt (Some (translate_newlines err))]]
              | Undecodable reason, _ | Text _, Undecodable reason =>
                  [Line ([Lit "Error generating "] ++ path_name output_file ++
                         [Lit ": "; FExn (UnicodeDecodeError reason)])]
              end
        | LaunchFails msg =>
            [Line ([Lit "Error generating "] ++ path_name output_file ++
                   [Lit ": "; FExn (OSError msg)])]
        end
  end.
Proof.
  split.
  - pose proof (run_generator_outcomes spawn radius angle diverse out v w)
      as (H1 & H2 & _ & H3).
    auto.
  - destruct (generate_stls.generate_scad_params radius fangle c odiverse)
      as [params|x] eqn:Hp.
    + apply generate_stl_outcomes. assumption.
    + unfold generate_stls.generate_stl. rewrite Hp. reflexivity.
Qed.

Lemma single_job_outcomes_witness :
  fst (run_generator garbled 24 (Float f22_5) 1800 (Some (Path "out")) false
         empty_world) = Ok false /\
  fst (run_generator garbled 24 (Float f22_5) 1800 (Some (Path "out")) true
         empty_world) = Ok true /\
  fst (generate_stls.generate_stl garbled (Path "curves.scad")
         (generate_stls.stl_path (Path "out") 24 "ballast") 24 f22_5 "ballast" false
         (Some 1800) empty_world) = Ok false /\
  generate_stls.generate_stl garbled (Path "curves.scad")
    (generate_stls.stl_path (Path "out") 24 "ballast_only") 24 f22_5 "ballast_only"
    true (Some 1800) empty_world =
  (Raise (ValueError "Unknown configuration: ballast_only"), empty_world).
Proof.
  destruct (single_job_outcomes garbled 24 (Float f22_5) f22_5 1800 (Some 1800)
              (Some (Path "out")) false (Path "curves.scad")
              (generate_stls.stl_path (Path "out") 24 "ballast") "ballast"
              empty_world) as [(H1 & _) (H3 & _)].
  destruct (single_job_outcomes garbled 24 (Float f22_5) f22_5 1800 (Some 1800)
              (Some (Path "out")) true (Path "curves.scad")
              (generate_stls.stl_path (Path "out") 24 "ballast_only") "ballast_only"
              empty_world) as [(H2 & _) H4].
  split; [exact H1|]. split; [exact H2|]. split; [exact H3|exact H4].
Defined.



(** C7. When the scene file does not exist, or [which openscad] exits
    with a nonzero code, the inner generator reports the error and exits
    with status 1 at once: at most the probe for the tool has been
    called, and no OpenSCAD job. *)
Theorem missing_tool_or_scene_is_fatal spawn path_exists
    (g : generate_stls.args) (w : world) :
  path_exists (generate_stls.scad_file g) = false \/
  (exists rc,
     exit_code (spawn (calls w) generate_stls.which_openscad) = Some rc /\ rc <> 0) ->
  let r := generate_stls.main spawn path_exists g w in
  fst r = Raise (SystemExit 1) /\
  exit_status (fst r) = 1 /\
  calls (snd r) =
    calls w ++ (if path_exists (generate_stls.scad_file g)
                then [(generate_stls.which_openscad,
                       spawn (calls w) generate_stls.which_openscad)]
                else []) /\
  dirs (snd r) = dirs w /\
  stdout (snd r) = stdout w /\
  exists report, report <> [] /\ stderr (snd r) = stderr w ++ report.
Proof.
  intros H r.
  destruct (check_fails_before_jobs spawn path_exists g w H)
    as (H1 & H2 & H3 & H4 & H5).
  subst r. rewrite H1. auto 10.
Qed.

Lemma missing_tool_or_scene_is_fatal_witness :
  (all_exist (generate_stls.scad_file stl_args) = false \/
   (exists rc,
      exit_code (all_fail (calls empty_world) generate_stls.which_openscad) = Some rc /\
      rc <> 0)) /\
  (let r := generate_stls.main all_fail all_exist stl_args empty_world in
   fst r = Raise (SystemExit 1) /\
   exit_status (fst r) = 1 /\
   calls (snd r) =
     calls empty_world ++
     (if all_exist (generate_stls.scad_file stl_args)
      then [(generate_stls.which_openscad,
             all_fail (calls empty_world) generate_stls.which_openscad)]
      else []) /\
   dirs (snd r) = dirs empty_world /\
   stdout (snd r) = stdout empty_world /\
   exists report, report <> [] /\ stderr (snd r) = stderr empty_world ++ report).
Proof.
  assert (H : all_exist (generate_stls.scad_file stl_args) = false \/
              (exists rc,
                 exit_code (all_fail (calls empty_world)
                              generate_stls.which_openscad) = Some rc /\ rc <> 0)).
  { right. exists 1. split; [reflexivity|lia]. }
  split; [exact H|].
  exact (missing_tool_or_scene_is_fatal all_fail all_exist stl_args empty_world H).
Defined.

(* ===================================================================== *)
(** * The diverse curve on all integers                                   *)
(* ===================================================================== *)

(** Conversion of a positive int is the rounding of its mantissa aligned
    to 53 digits. *)
Lemma of_int_round p d :
  2 ^ (d - 1) <= Z.pos p < 2 ^ d ->
  exists mz,
    binary_normalize 53 1024 (Z.pos p) 0 false =
      binary_round_aux 53 1024 false (Z.pos mz) (Z.min 0 (d - 53)) loc_Exact /\
    Z.pos mz = Z.pos p * 2 ^ (- Z.min 0 (d - 53)).
Proof.
  intros Hd. cbn [binary_normalize]. unfold binary_round.
  rewrite (digits2_unique p d Hd).
  assert (Hd1 : 1 <= d).
  { destruct (Z_lt_le_dec d 1); [|assumption].
    assert (2 ^ d <= 2 ^ 0) by (destruct (Z_lt_le_dec d 0);
      [rewrite Z.pow_neg_r by assumption; cbn; lia | apply Z.pow_le_mono_r; lia]).
    cbn in H. lia. }
  pose proof (shl_align_spec p 0 (fexp 53 1024 (d + 0))) as [Hez Hmz].
  destruct (shl_align p 0 (fexp 53 1024 (d + 0))) as [mz ez]. cbn [fst snd] in Hez, Hmz.
  rewrite fexp64_eq in Hez, Hmz.
  replace (Z.min 0 (Z.max (d + 0 - 53) (-1074))) with (Z.min 0 (d - 53)) in Hez, Hmz by lia.
  exists mz. subst ez. split; [reflexivity|].
  rewrite Hmz. replace (0 - Z.min 0 (d - 53)) with (- Z.min 0 (d - 53)) by lia.
  reflexivity.
Qed.

(** Rounding is exact when the digits to drop are all zero. *)
Lemma binary_round_aux_exact s p e d c :
  -1074 <= e -> 2 ^ (d - 1) <= Z.pos p < 2 ^ d ->
  Z.pos p = c * 2 ^ Z.max 0 (d - 53) -> e + Z.max 0 (d - 53) <= 971 ->
  exists m',
    binary_round_aux 53 1024 s (Z.pos p) e loc_Exact =
      S754_finite s m' (e + Z.max 0 (d - 53)) /\
    Z.pos m' = c.
Proof.
  intros He Hd Hc Hov.
  destruct (binary_round_aux_spec s p e d He Hd) as (m' & e' & E & Hr & _).
  set (k := Z.max 0 (d - 53)) in *.
  assert (Hk : 0 <= k) by (unfold k; lia).
  assert (Hq : Z.pos p / 2 ^ k = c).
  { rewrite Hc. apply Z.div_mul. apply Z.pow_nonzero; lia. }
  assert (Hbit : 0 < k -> Z.testbit (Z.pos p) (k - 1) = false).
  { intros Hk0. rewrite Hc. apply Z.mul_pow2_bits_low. lia. }
  assert (He' : e' = e + k /\ Z.pos m' = c).
  { destruct Hr as [(He' & _ & [Hm|(_ & Hk0 & Hb)])|(_ & _ & _ & Hk0 & Hb)].
    - split; [assumption|]. congruence.
    - rewrite (Hbit Hk0) in Hb. discriminate.
    - rewrite (Hbit Hk0) in Hb. discriminate. }
  destruct He' as [-> Hm]. exists m'.
  rewrite E. replace (e + k <=? 971) with true by (symmetry; apply Z.leb_le; lia).
  auto.
Qed.

(** Rounding never moves below the leading power of two. *)
Lemma binary_round_aux_lower s p e d m e1 :
  -1074 <= e -> 2 ^ (d - 1) <= Z.pos p < 2 ^ d -> 53 <= d ->
  binary_round_aux 53 1024 s (Z.pos p) e loc_Exact = S754_finite s m e1 ->
  e + (d - 53) <= e1 /\ 2 ^ 52 <= Z.pos m.
Proof.
  intros He Hd Hd53 E1.
  destruct (binary_round_aux_spec s p e d He Hd) as (m' & e' & E & Hr & _).
  rewrite E1 in E. destruct (e' <=? 971); [|discriminate].
  injection E as -> ->.
  replace (Z.max 0 (d - 53)) with (d - 53) in Hr by lia.
  pose proof (div_pow2_lower (Z.pos p) d Hd53 (proj1 Hd)) as Hq.
  destruct Hr as [(He' & _ & [Hm|(Hm & _)])|(He' & Hm & _)]; split; try lia.
Qed.

(** An int of at most 49 bits converts exactly. *)
Lemma float_of_int_exact n :
  0 < n < 2 ^ 49 ->
  exists m e,
    binary_normalize 53 1024 n 0 false = S754_finite false m e /\
    Z.pos m = n * 2 ^ (- e) /\ -52 <= e <= -4 /\ 2 ^ 52 <= Z.pos m < 2 ^ 53.
Proof.
  intros Hn. destruct n as [|p|p]; try lia.
  pose proof (digits2_bounds p) as Hd. set (d := Z.pos (digits2_pos p)) in *.
  assert (Hd1 : 1 <= d) by (unfold d; lia).
  assert (Hd2 : d <= 49) by (apply (digits_le (Z.pos p) d 49); lia).
  destruct (of_int_round p d Hd) as (mz & E & Hmz).
  replace (Z.min 0 (d - 53)) with (d - 53) in E, Hmz by lia.
  replace (- (d - 53)) with (53 - d) in Hmz by lia.
  assert (Hmb : 2 ^ (53 - 1) <= Z.pos mz < 2 ^ 53).
  { rewrite Hmz. replace (53 - 1) with ((d - 1) + (53 - d)) by lia.
    replace (2 ^ 53) with (2 ^ (d + (53 - d))) by (f_equal; lia).
    rewrite !Z.pow_add_r by lia.
    assert (0 < 2 ^ (53 - d)) by (apply Z.pow_pos_nonneg; lia). nia. }
  destruct (binary_round_aux_exact false mz (d - 53) 53 (Z.pos mz)) as (m' & E' & Hm');
    [lia|exact Hmb| | |].
  { change (Z.max 0 (53 - 53)) with 0. lia. }
  { change (Z.max 0 (53 - 53)) with 0. lia. }
  change (Z.max 0 (53 - 53)) with 0 in E'. rewrite Z.add_0_r in E'.
  exists m', (d - 53). rewrite E, E'. split; [reflexivity|].
  replace (- (d - 53)) with (53 - d) by lia. change (53 - 1) with 52 in Hmb.
  rewrite Hm'. repeat split; lia.
Qed.

(** The product of 0.8125 and an exactly converted int is exact. *)
Lemma mul_a_exact mx ex n :
  Z.pos mx = n * 2 ^ (- ex) -> 2 ^ 52 <= Z.pos mx < 2 ^ 53 -> -52 <= ex <= -4 ->
  exists m2 e2,
    SFmul 53 1024 a (S754_finite false mx ex) = S754_finite false m2 e2 /\
    Z.pos m2 = 13 * n * 2 ^ (-4 - e2) /\ -53 <= e2 <= -4.
Proof.
  intros Hn Hm He. rewrite a_eq. cbn [SFmul xorb].
  set (P := (13 * 2 ^ 49 * mx)%positive).
  assert (HP : Z.pos P = 13 * 2 ^ 49 * Z.pos mx) by reflexivity.
  assert (Hdiv : forall k, 52 <= k <= 53 ->
            Z.pos P = 13 * n * 2 ^ (49 - ex - k) * 2 ^ Z.max 0 (k + 53 - 53)).
  { intros k Hk. replace (Z.max 0 (k + 53 - 53)) with k by lia.
    rewrite HP, Hn, <- !Z.mul_assoc, <- Z.pow_add_r by lia.
    replace (49 - ex - k + k) with (49 + - ex) by lia.
    rewrite Z.pow_add_r by lia. lia. }
  destruct (Z_lt_le_dec (Z.pos P) (2 ^ 105)) as [Hlt|Hge].
  - assert (Hd : 2 ^ (52 + 53 - 1) <= Z.pos P < 2 ^ (52 + 53))
      by (cbn; split; [|assumption]; lia).
    destruct (binary_round_aux_exact false P (-53 + ex) (52 + 53) _
                ltac:(lia) Hd (Hdiv 52 ltac:(lia)) ltac:(cbn; lia)) as (m' & E & Hm').
    change (Z.max 0 (52 + 53 - 53)) with 52 in E.
    exists m', (-53 + ex + 52). split; [exact E|].
    split; [|lia]. rewrite Hm'. f_equal. f_equal. lia.
  - assert (Hd : 2 ^ (53 + 53 - 1) <= Z.pos P < 2 ^ (53 + 53))
      by (cbn; split; [assumption|]; lia).
    destruct (binary_round_aux_exact false P (-53 + ex) (53 + 53) _
                ltac:(lia) Hd (Hdiv 53 ltac:(lia)) ltac:(cbn; lia)) as (m' & E & Hm').
    change (Z.max 0 (53 + 53 - 53)) with 53 in E.
    exists m', (-53 + ex + 53). split; [exact E|].
    split; [|lia]. rewrite Hm'. f_equal. f_equal. lia.
Qed.

(** Adding 500 to a positive float aligns both mantissas to the smaller
    exponent and rounds their sum. *)
Lemma add_500_round m2 e2 :
  -1074 <= e2 ->
  exists S,
    SFadd 53 1024 (S754_finite false m2 e2)
      (S754_finite false (500 * 2 ^ 44) (-44)) =
      binary_round_aux 53 1024 false (Z.pos S) (Z.min e2 (-44)) loc_Exact /\
    Z.pos S = Z.pos m2 * 2 ^ (e2 - Z.min e2 (-44)) +
              500 * 2 ^ 44 * 2 ^ (-44 - Z.min e2 (-44)).
Proof.
  intros He. cbn [SFadd cond_Zopp].
  set (ez := Z.min e2 (-44)).
  pose proof (shl_align_spec m2 e2 ez) as [_ Ha].
  pose proof (shl_align_spec (500 * 2 ^ 44) (-44) ez) as [_ Hb].
  set (ma := fst (shl_align m2 e2 ez)) in *.
  set (mb := fst (shl_align (500 * 2 ^ 44) (-44) ez)) in *.
  replace (Z.min e2 ez) with ez in Ha by (unfold ez; lia).
  replace (Z.min (-44) ez) with ez in Hb by (unfold ez; lia).
  change (Z.pos (500 * 2 ^ 44)) with (500 * 2 ^ 44) in Hb.
  change (Z.pos ma + Z.pos mb) with (Z.pos (ma + mb)).
  cbn [binary_normalize]. unfold binary_round.
  set (S := (ma + mb)%positive).
  assert (HS : Z.pos S = Z.pos ma + Z.pos mb) by reflexivity.
  pose proof (digits2_bounds S) as Hd. set (d := Z.pos (digits2_pos S)) in *.
  assert (Hpj : 0 < 2 ^ (-44 - ez)) by (apply Z.pow_pos_nonneg; unfold ez; lia).
  assert (Hdj : 52 < d).
  { apply (digits_ge (Z.pos S)); lia. }
  pose proof (shl_align_spec S ez (fexp 53 1024 (d + ez))) as [Hez Hmz].
  destruct (shl_align S ez (fexp 53 1024 (d + ez))) as [mz ez'].
  cbn [fst snd] in Hez, Hmz. rewrite fexp64_eq in Hez, Hmz.
  replace (Z.min ez (Z.max (d + ez - 53) (-1074))) with ez in Hez, Hmz by (unfold ez; lia).
  rewrite Z.sub_diag, Z.pow_0_r, Z.mul_1_r in Hmz.
  assert (mz = S) by congruence. subst mz ez'.
  exists S. split; [reflexivity|]. rewrite HS, Ha, Hb. reflexivity.
Qed.

(** When the exact sum fits in 53 bits the addition is exact. *)
Lemma add_500_exact m2 e2 N :
  Z.pos m2 = N * 2 ^ (-4 - e2) -> -53 <= e2 <= -4 -> N + 8000 < 2 ^ 53 ->
  exists m e,
    SFadd 53 1024 (S754_finite false m2 e2)
      (S754_finite false (500 * 2 ^ 44) (-44)) = S754_finite false m e /\
    Z.pos m = (N + 8000) * 2 ^ (-4 - e) /\ e <= -4.
Proof.
  intros Hm He HN.
  destruct (add_500_round m2 e2 ltac:(lia)) as (S & E & HS).
  set (ez := Z.min e2 (-44)) in *.
  set (t := -4 - ez).
  assert (Ht : 40 <= t <= 49) by (unfold t, ez; lia).
  assert (HSb : 2 ^ 52 <= Z.pos S).
  { assert (0 < 2 ^ (-44 - ez)) by (apply Z.pow_pos_nonneg; unfold ez; lia).
    assert (0 < 2 ^ (e2 - ez)) by (apply Z.pow_pos_nonneg; unfold ez; lia).
    nia. }
  assert (Hpt : 0 < 2 ^ t) by (apply Z.pow_pos_nonneg; lia).
  assert (HN0 : 0 < N).
  { assert (0 < 2 ^ (-4 - e2)) by (apply Z.pow_pos_nonneg; lia). nia. }
  assert (HSV : Z.pos S = (N + 8000) * 2 ^ t).
  { rewrite HS, Hm, <- Z.mul_assoc, <- Z.pow_add_r by (unfold ez; lia).
    replace (-4 - e2 + (e2 - ez)) with t by (unfold t; lia).
    replace (500 * 2 ^ 44) with (8000 * 2 ^ 40) by reflexivity.
    rewrite <- (Z.mul_assoc 8000), <- Z.pow_add_r by (unfold ez; lia).
    replace (40 + (-44 - ez)) with t by (unfold t; lia). lia. }
  pose proof (digits2_bounds S) as Hd. set (d := Z.pos (digits2_pos S)) in *.
  assert (Hd1 : 52 < d) by (apply (digits_ge (Z.pos S)); lia).
  assert (Hd2 : d <= 53 + t).
  { apply (digits_le (Z.pos S) d (53 + t)); try lia.
    rewrite HSV, Z.pow_add_r by lia. nia. }
  set (k := d - 53).
  destruct (binary_round_aux_exact false S ez d ((N + 8000) * 2 ^ (t - k)))
    as (m' & E' & Hm'); [unfold ez; lia|exact Hd| |unfold t, k in *; lia|].
  { replace (Z.max 0 (d - 53)) with k by (unfold k; lia).
    rewrite HSV, <- Z.mul_assoc, <- Z.pow_add_r by (unfold k; lia).
    f_equal. f_equal. lia. }
  replace (Z.max 0 (d - 53)) with k in E' by (unfold k; lia).
  exists m', (ez + k). rewrite E, E'. split; [reflexivity|].
  replace (-4 - (ez + k)) with (t - k) by (unfold t; lia).
  split; [assumption|unfold t, k in *; lia].
Qed.

(** The formula of the specification, over the integers. *)
Lemma diverse_formula_eq radius :
  Spec.diverse_formula radius =
  Z.min ((13 * (radius - 64) ^ 2 + 8000) / 16) 1800.
Proof.
  unfold Spec.diverse_formula, Spec.Qtrunc.
  assert (0 <= (radius - 64) ^ 2) by (rewrite Z.pow_2_r; apply Z.square_nonneg).
  cbn [Qmult Qplus inject_Z Qnum Qden].
  change (Z.pos (16 * 1 * 1)) with 16. change (Z.pos (16 * 1)) with 16.
  rewrite Z.quot_div_nonneg by lia. f_equal. f_equal. lia.
Qed.

(** Near the vertex every float operation of the curve is exact. *)
Lemma calculate_diverse_small radius :
  (radius - 64) ^ 2 < 2 ^ 49 ->
  calculate_diverse radius = Ok (Z.min ((13 * (radius - 64) ^ 2 + 8000) / 16) 1800).
Proof.
  intros Hn. unfold calculate_diverse, vertex, maximum.
  set (n := (radius - 64) ^ 2) in *.
  assert (Hn0 : 0 <= n) by (unfold n; rewrite Z.pow_2_r; apply Z.square_nonneg).
  destruct (Z.eq_dec n 0) as [->|Hnz]; [reflexivity|].
  destruct (float_of_int_exact n) as (m & e & E & Hm & He & Hmb); [lia|].
  unfold float_mul_int. rewrite (float_of_int_finite _ _ _ E), result_bind_ok.
  destruct (mul_a_exact m e n Hm Hmb He) as (m2 & e2 & E2 & Hm2 & He2).
  unfold float_mul, prec, emax. rewrite E2.
  change (mret (S754_finite false m2 e2)) with (Ok (S754_finite false m2 e2)).
  rewrite result_bind_ok.
  unfold float_add_int. rewrite float_of_int_500, result_bind_ok.
  destruct (add_500_exact m2 e2 (13 * n) Hm2 He2 ltac:(lia)) as (m3 & e3 & E3 & Hm3 & He3).
  unfold float_add, prec, emax. rewrite E3.
  change (mret (S754_finite false m3 e3)) with (Ok (S754_finite false m3 e3)).
  rewrite result_bind_ok. cbn [int_of_float cond_Zopp]. rewrite result_bind_ok.
  change (mret ?x) with (Ok x). f_equal. f_equal.
  rewrite Z.shiftl_div_pow2 by lia. rewrite Hm3.
  replace (- e3) with ((-4 - e3) + 4) by lia.
  rewrite Z.pow_add_r by lia. change (2 ^ 4) with 16.
  rewrite (Z.mul_comm (2 ^ (-4 - e3)) 16).
  rewrite Z.div_mul_cancel_r; [reflexivity|lia|].
  apply Z.pow_nonzero; lia.
Qed.

Lemma shiftl_ge_1800 m e : -4 <= e -> 2 ^ 52 <= m -> 1800 <= Z.shiftl m e.
Proof.
  intros He Hm. destruct (Z_lt_le_dec e 0) as [Hn|Hp].
  - rewrite Z.shiftl_div_pow2 by lia.
    apply Z.div_le_lower_bound; [apply Z.pow_pos_nonneg; lia|].
    assert (2 ^ (- e) <= 2 ^ 4) by (apply Z.pow_le_mono_r; lia). lia.
  - rewrite Z.shiftl_mul_pow2 by assumption.
    assert (0 < 2 ^ e) by (apply Z.pow_pos_nonneg; lia). nia.
Qed.

(** Far from the vertex the float result is clamped. *)
Lemma calculate_diverse_large radius :
  2 ^ 49 <= (radius - 64) ^ 2 < 2 ^ 1024 - 2 ^ 970 ->
  calculate_diverse radius = Ok 1800.
Proof.
  intros Hn. unfold calculate_diverse, vertex, maximum.
  set (n := (radius - 64) ^ 2) in *.
  destruct (binary_normalize_int n) as (m & e & E & Hm & He); [lia|].
  (* the exponent of the converted int *)
  assert (He3 : -3 <= e).
  { destruct n as [|p|p]; try lia.
    pose proof (digits2_bounds p) as Hd. set (d := Z.pos (digits2_pos p)) in *.
    assert (Hd1 : 49 < d) by (apply (digits_ge (Z.pos p)); lia).
    destruct (of_int_round p d Hd) as (mz & E' & Hmz). rewrite E in E'. symmetry in E'.
    destruct (Z_le_gt_dec d 53).
    - replace (Z.min 0 (d - 53)) with (d - 53) in * by lia.
      replace (- (d - 53)) with (53 - d) in Hmz by lia.
      assert (Hmb : 2 ^ (53 - 1) <= Z.pos mz < 2 ^ 53).
      { rewrite Hmz. replace (53 - 1) with ((d - 1) + (53 - d)) by lia.
        replace (2 ^ 53) with (2 ^ (d + (53 - d))) by (f_equal; lia).
        rewrite !Z.pow_add_r by lia.
        assert (0 < 2 ^ (53 - d)) by (apply Z.pow_pos_nonneg; lia). nia. }
      destruct (binary_round_aux_lower false mz (d - 53) 53 m e ltac:(lia) Hmb ltac:(lia) E').
      lia.
    - replace (Z.min 0 (d - 53)) with 0 in * by lia.
      rewrite Z.pow_0_r, Z.mul_1_r in Hmz. rewrite Hmz in E'.
      destruct (binary_round_aux_lower false p 0 d m e ltac:(lia) Hd ltac:(lia) E'). lia. }
  unfold float_mul_int. rewrite (float_of_int_finite _ _ _ E), result_bind_ok.
  destruct (mul_a_spec m e Hm He) as (m2 & e2 & E2 & Hm2 & He2 & Hv).
  (* the exponent of the product *)
  assert (He4 : -4 <= e2).
  { rewrite a_eq in E2. cbn [SFmul xorb] in E2.
    set (P := (13 * 2 ^ 49 * m)%positive) in *.
    assert (HP : Z.pos P = 13 * 2 ^ 49 * Z.pos m) by reflexivity.
    pose proof (digits2_bounds P) as Hd. set (d := Z.pos (digits2_pos P)) in *.
    assert (Hd1 : 104 < d) by (apply (digits_ge (Z.pos P)); lia).
    destruct (binary_round_aux_lower false P (-53 + e) d m2 e2 ltac:(lia) Hd ltac:(lia) E2).
    lia. }
  unfold float_mul, prec, emax. rewrite E2.
  change (mret (S754_finite false m2 e2)) with (Ok (S754_finite false m2 e2)).
  rewrite result_bind_ok.
  unfold float_add_int. rewrite float_of_int_500, result_bind_ok.
  destruct (add_500_spec m2 e2 Hm2 He2 Hv) as (m3 & e3 & E3 & _).
  (* the exponent and mantissa of the sum *)
  assert (H3 : -4 <= e3 /\ 2 ^ 52 <= Z.pos m3).
  { destruct (add_500_round m2 e2 ltac:(lia)) as (S & E' & HS).
    rewrite E3 in E'. symmetry in E'.
    replace (Z.min e2 (-44)) with (-44) in * by lia.
    change (2 ^ (-44 - -44)) with 1 in HS.
    pose proof (digits2_bounds S) as Hd. set (d := Z.pos (digits2_pos S)) in *.
    assert (2 ^ 40 <= 2 ^ (e2 - -44)) by (apply Z.pow_le_mono_r; lia).
    assert (Hd1 : 92 < d) by (apply (digits_ge (Z.pos S)); nia).
    destruct (binary_round_aux_lower false S (-44) d m3 e3 ltac:(lia) Hd ltac:(lia) E').
    lia. }
  unfold float_add, prec, emax. rewrite E3.
  change (mret (S754_finite false m3 e3)) with (Ok (S754_finite false m3 e3)).
  rewrite result_bind_ok. cbn [int_of_float cond_Zopp]. rewrite result_bind_ok.
  change (mret ?x) with (Ok x). f_equal.
  pose proof (shiftl_ge_1800 (Z.pos m3) e3 (proj1 H3) (proj2 H3)). lia.
Qed.

Lemma square_abs_le a b : Z.abs a <= Z.abs b -> a ^ 2 <= b ^ 2.
Proof. intros H. rewrite !Z.pow_2_r. nia. Qed.

Lemma square_abs_ge a c : 0 <= c -> (c ^ 2 <= a ^ 2 <-> c <= Z.abs a).
Proof. intros Hc. rewrite !Z.pow_2_r. split; intros H; nia. Qed.

Lemma div16_bounds x : 16 * (x / 16) <= x < 16 * (x / 16) + 16.
Proof.
  pose proof (Z.div_mod x 16 ltac:(lia)).
  pose proof (Z.mod_pos_bound x 16 ltac:(lia)). lia.
Qed.

(** The float computation agrees with integer arithmetic on the whole
    range in which the conversion to float succeeds. *)
Lemma calculate_diverse_in_range radius :
  (radius - 64) ^ 2 < 2 ^ 1024 - 2 ^ 970 ->
  calculate_diverse radius =
  Ok (Z.min ((13 * (radius - 64) ^ 2 + 8000) / 16) 1800).
Proof.
  intros Hn.
  destruct (Z_lt_le_dec ((radius - 64) ^ 2) (2 ^ 49)) as [Hs|Hl].
  - apply calculate_diverse_small. assumption.
  - rewrite calculate_diverse_large by lia. f_equal.
    assert (1800 <= (13 * (radius - 64) ^ 2 + 8000) / 16)
      by (apply Z.div_le_lower_bound; lia).
    lia.
Qed.

(** X1. For every integer radius inside the float range, the float
    computation of [calculate_diverse] returns exactly the value of
    [min(int(0.8125*(radius-64)^2+500), 1800)] over the rationals: no
    rounding error ever reaches the result. *)
Theorem calculate_diverse_exact radius :
  (radius - 64) ^ 2 < 2 ^ 1024 - 2 ^ 970 ->
  calculate_diverse radius = Ok (Spec.diverse_formula radius).
Proof.
  intros Hn. rewrite diverse_formula_eq.
  apply calculate_diverse_in_range. exact Hn.
Qed.

Lemma calculate_diverse_exact_witness :
  (1000000 - 64) ^ 2 < 2 ^ 1024 - 2 ^ 970 /\
  calculate_diverse 1000000 = Ok (Spec.diverse_formula 1000000).
Proof.
  assert (H : (1000000 - 64) ^ 2 < 2 ^ 1024 - 2 ^ 970) by (vm_compute; reflexivity).
  split; [exact H|]. exact (calculate_diverse_exact 1000000 H).
Defined.

(** X2. [calculate_diverse] raises OverflowError exactly when the squared
    distance from 64 is at least [2^1024 - 2^970]; it raises nothing
    else. *)
Theorem calculate_diverse_overflow_iff radius :
  calculate_diverse radius = Raise OverflowError <->
  2 ^ 1024 - 2 ^ 970 <= (radius - 64) ^ 2.
Proof.
  split.
  - intros H. destruct (Z_lt_le_dec ((radius - 64) ^ 2) (2 ^ 1024 - 2 ^ 970)) as [Hs|Hl];
      [|assumption].
    rewrite (calculate_diverse_in_range radius Hs) in H. discriminate.
  - apply calculate_diverse_raises.
Qed.

(** X3. For all integer radii, not only those of the table, the result
    grows with the distance from the vertex 64. *)
Theorem calculate_diverse_monotone r1 r2 :
  (r2 - 64) ^ 2 < 2 ^ 1024 - 2 ^ 970 ->
  Z.abs (r1 - 64) <= Z.abs (r2 - 64) ->
  exists d1 d2,
    calculate_diverse r1 = Ok d1 /\ calculate_diverse r2 = Ok d2 /\ d1 <= d2.
Proof.
  intros Hn Habs. pose proof (square_abs_le _ _ Habs) as Hsq.
  rewrite (calculate_diverse_in_range r1), (calculate_diverse_in_range r2) by lia.
  do 2 eexists. split; [reflexivity|]. split; [reflexivity|].
  apply Z.min_le_compat_r. apply Z.div_le_mono; lia.
Qed.

Lemma calculate_diverse_monotone_witness :
  ((200 - 64) ^ 2 < 2 ^ 1024 - 2 ^ 970 /\ Z.abs (30 - 64) <= Z.abs (200 - 64)) /\
  exists d1 d2,
    calculate_diverse 30 = Ok d1 /\ calculate_diverse 200 = Ok d2 /\ d1 <= d2.
Proof.
  assert (H1 : (200 - 64) ^ 2 < 2 ^ 1024 - 2 ^ 970) by (vm_compute; reflexivity).
  assert (H2 : Z.abs (30 - 64) <= Z.abs (200 - 64)) by (vm_compute; discriminate).
  split; [auto|]. exact (calculate_diverse_monotone 30 200 H1 H2).
Defined.

(** X4. Inside the float range the result is the cap 1800 exactly when
    the radius is at least 40 away from 64 (R24 and below, R104 and
    above). *)
Theorem calculate_diverse_clamped radius :
  (radius - 64) ^ 2 < 2 ^ 1024 - 2 ^ 970 ->
  (calculate_diverse radius = Ok 1800 <-> 40 <= Z.abs (radius - 64)).
Proof.
  intros Hn. rewrite (calculate_diverse_in_range radius Hn).
  rewrite <- (square_abs_ge (radius - 64) 40) by lia. change (40 ^ 2) with 1600.
  set (n := (radius - 64) ^ 2) in *. clearbody n.
  pose proof (div16_bounds (13 * n + 8000)).
  split.
  - intros [= H']. lia.
  - intros H'. f_equal. lia.
Qed.

Lemma calculate_diverse_clamped_witness :
  (23 - 64) ^ 2 < 2 ^ 1024 - 2 ^ 970 /\
  (calculate_diverse 23 = Ok 1800 <-> 40 <= Z.abs (23 - 64)).
Proof.
  assert (H : (23 - 64) ^ 2 < 2 ^ 1024 - 2 ^ 970) by (vm_compute; reflexivity).
  split; [exact H|]. exact (calculate_diverse_clamped 23 H).
Defined.

(** X5. The minimum 500 is returned exactly at the radii 63, 64 and
    65. *)
Theorem calculate_diverse_minimum radius :
  calculate_diverse radius = Ok 500 <-> Z.abs (radius - 64) <= 1.
Proof.
  split.
  - intros H.
    destruct (Z_lt_le_dec ((radius - 64) ^ 2) (2 ^ 1024 - 2 ^ 970)) as [Hs|Hl].
    + rewrite (calculate_diverse_in_range radius Hs) in H.
      injection H as H.
      pose proof (div16_bounds (13 * (radius - 64) ^ 2 + 8000)).
      assert (Hn : (radius - 64) ^ 2 < 2 ^ 2) by (change (2 ^ 2) with 4; lia).
      destruct (Z_le_gt_dec (Z.abs (radius - 64)) 1) as [|Hgt]; [assumption|].
      pose proof (proj2 (square_abs_ge (radius - 64) 2 ltac:(lia)) ltac:(lia)). lia.
    + rewrite (calculate_diverse_raises radius Hl) in H. discriminate.
  - intros H. pose proof (square_abs_le (radius - 64) 1 ltac:(lia)) as Hsq.
    change (1 ^ 2) with 1 in Hsq.
    assert (Hn0 : 0 <= (radius - 64) ^ 2) by (rewrite Z.pow_2_r; apply Z.square_nonneg).
    rewrite (calculate_diverse_in_range radius) by lia. f_equal.
    pose proof (div16_bounds (13 * (radius - 64) ^ 2 + 8000)). lia.
Qed.

(* ===================================================================== *)
(** * Further properties of the tables                                    *)
(* ===================================================================== *)

(** The comprehension maps exactly the keys of the list, on top of the
    accumulator. *)
Lemma diverse_map_of_lookup radii :
  forall acc dm,
  diverse_map_of radii acc = Ok dm ->
  forall r,
    (r ∈ radii -> exists d, calculate_diverse r = Ok d /\ dm !! r = Some d) /\
    (r ∉ radii -> dm !! r = acc !! r).
Proof.
  induction radii as [|x rest IH]; intros acc dm H r.
  - injection H as <-. split; [intros Hin; apply elem_of_nil in Hin; contradiction|auto].
  - cbn [diverse_map_of] in H.
    destruct (calculate_diverse x) as [d|e] eqn:Hx; [|discriminate].
    rewrite result_bind_ok in H. destruct (IH _ _ H r) as [Hin Hout].
    split.
    + intros Hr. destruct (decide (r ∈ rest)) as [Hr'|Hr']; [auto|].
      apply elem_of_cons in Hr as [->|Hr]; [|contradiction].
      exists d. split; [assumption|]. rewrite (Hout Hr'). apply lookup_insert_eq.
    + intros Hr. apply not_elem_of_cons in Hr as [Hne Hr].
      rewrite (Hout Hr). apply lookup_insert_ne. congruence.
Qed.

(** X6. When the dict comprehension returns, the dict maps every radius
    of the list to [calculate_diverse] of it and maps nothing else. *)
Theorem diverse_map_of_keys radii dm :
  diverse_map_of radii ∅ = Ok dm ->
  forall r,
    (r ∈ radii -> exists d, calculate_diverse r = Ok d /\ dm !! r = Some d) /\
    (r ∉ radii -> dm !! r = None).
Proof.
  intros H r. destruct (diverse_map_of_lookup radii ∅ dm H r) as [Hin Hout].
  split; [assumption|]. intros Hr. rewrite (Hout Hr). apply lookup_empty.
Qed.

Lemma diverse_map_of_keys_witness :
  diverse_map_of [24; 70] ∅ = Ok (<[70 := 529]> (<[24 := 1800]> ∅)) /\
  forall r,
    (r ∈ [24; 70] -> exists d, calculate_diverse r = Ok d /\
                              (<[70 := 529]> (<[24 := 1800]> ∅) : gmap Z Z) !! r = Some d) /\
    (r ∉ [24; 70] -> (<[70 := 529]> (<[24 := 1800]> ∅) : gmap Z Z) !! r = None).
Proof.
  assert (H : diverse_map_of [24; 70] ∅ = Ok (<[70 := 529]> (<[24 := 1800]> ∅)))
    by (vm_compute; reflexivity).
  split; [exact H|]. exact (diverse_map_of_keys [24; 70] _ H).
Defined.

(** X7. The dict comprehension raises exactly when one radius of the
    list is outside the float range of [calculate_diverse]. *)
Theorem diverse_map_of_raises radii :
  (exists e, diverse_map_of radii ∅ = Raise e) <->
  Exists (fun r => 2 ^ 1024 - 2 ^ 970 <= (r - 64) ^ 2) radii.
Proof.
  generalize (∅ : gmap Z Z).
  induction radii as [|x rest IH]; intros acc.
  - split; [intros [e H]; discriminate|intros H; inversion H].
  - cbn [diverse_map_of].
    destruct (Z_lt_le_dec ((x - 64) ^ 2) (2 ^ 1024 - 2 ^ 970)) as [Hs|Hl].
    + rewrite (calculate_diverse_in_range x Hs), result_bind_ok, IH.
      split; [intros H; right; assumption|].
      intros H. apply Exists_cons in H as [H|H]; [lia|assumption].
    + rewrite (calculate_diverse_raises x Hl).
      split; [intros _; left; assumption|intros _; eexists; reflexivity].
Qed.

(** X8. The keys of [ANGLE_MAP] and of [DIVERSE_MAP] are exactly the
    radii of [RADII]; subscripting the angle table with any other radius
    raises KeyError. *)
Theorem tables_cover_exactly_RADII r :
  (is_Some (ANGLE_MAP !! r) <-> r ∈ RADII) /\
  (exists dm, DIVERSE_MAP = Ok dm /\ (is_Some (dm !! r) <-> r ∈ RADII)) /\
  (r ∉ RADII -> forall w, getitem ANGLE_MAP r w = (Raise (KeyError r), w)).
Proof.
  assert (HA : is_Some (ANGLE_MAP !! r) <-> r ∈ RADII).
  { rewrite <- elem_of_dom. unfold ANGLE_MAP. rewrite dom_list_to_map_L.
    rewrite elem_of_list_to_set. reflexivity. }
  split; [exact HA|]. split.
  - exists diverse_table. split; [apply DIVERSE_MAP_table|].
    rewrite <- elem_of_dom. unfold diverse_table. rewrite dom_list_to_map_L.
    rewrite elem_of_list_to_set. reflexivity.
  - intros Hr w. unfold getitem.
    destruct (ANGLE_MAP !! r) eqn:E; [|reflexivity].
    exfalso. apply Hr, HA. eauto.
Qed.

Lemma angle_order_check_all r1 r2 :
  r1 ∈ RADII -> r2 ∈ RADII -> angle_order_check r1 r2 = true.
Proof.
  intros H1 H2. revert r1 H1.
  apply RADII_cases; revert r2 H2; apply RADII_cases; vm_compute; reflexivity.
Qed.

(** X9. Smaller radii get larger angles: over the radii of the list the
    angle never increases with the radius. *)
Theorem angles_decrease_with_radius r1 r2 :
  r1 ∈ RADII -> r2 ∈ RADII -> r1 <= r2 ->
  exists a1 a2 q1 q2,
    ANGLE_MAP !! r1 = Some a1 /\ ANGLE_MAP !! r2 = Some a2 /\
    Spec.num_value a1 = Some q1 /\ Spec.num_value a2 = Some q2 /\
    (q2 <= q1)%Q.
Proof.
  intros H1 H2 Hle. pose proof (angle_order_check_all r1 r2 H1 H2) as Hc.
  unfold angle_order_check in Hc.
  destruct (ANGLE_MAP !! r1) as [a1|]; [|discriminate].
  destruct (ANGLE_MAP !! r2) as [a2|]; [|discriminate].
  destruct (Spec.num_value a1) as [q1|] eqn:E1; [|discriminate].
  destruct (Spec.num_value a2) as [q2|] eqn:E2; [|discriminate].
  exists a1, a2, q1, q2. do 4 (split; [reflexivity || assumption|]).
  apply Qle_bool_iff. replace (r1 <=? r2) with true in Hc by (symmetry; apply Z.leb_le; lia).
  exact Hc.
Qed.

Lemma angles_decrease_with_radius_witness :
  (32 ∈ RADII /\ 96 ∈ RADII /\ 32 <= 96) /\
  exists a1 a2 q1 q2,
    ANGLE_MAP !! 32 = Some a1 /\ ANGLE_MAP !! 96 = Some a2 /\
    Spec.num_value a1 = Some q1 /\ Spec.num_value a2 = Some q2 /\
    (q2 <= q1)%Q.
Proof.
  assert (H1 : 32 ∈ RADII)
    by (unfold RADII; do 1 apply list_elem_of_further; apply list_elem_of_here).
  assert (H2 : 96 ∈ RADII)
    by (unfold RADII; do 9 apply list_elem_of_further; apply list_elem_of_here).
  assert (H3 : 32 <= 96) by lia.
  split; [auto|]. exact (angles_decrease_with_radius 32 96 H1 H2 H3).
Defined.

(* ===================================================================== *)
(** * Further properties of the drivers                                   *)
(* ===================================================================== *)

(** A loop keeps what each round keeps, and adds up what each successful
    round adds. *)
Lemma for_fold_preserves {A S} (P : world -> Prop) (body : A -> S -> M S) l :
  (forall x s w, P w -> P (snd (body x s w))) ->
  forall s w, P w -> P (snd (for_fold l body s w)).
Proof.
  intros Hbody. induction l as [|x l IH]; intros s w Hw; [exact Hw|].
  cbn [for_fold]. rewrite bind_run.
  pose proof (Hbody x s w Hw) as Hx.
  destruct (body x s w) as [[s'|e] w']; cbn [snd] in *; auto.
Qed.

Lemma for_fold_accumulates {A S B} (proj : world -> list B) (f : A -> list B)
    (body : A -> S -> M S) l :
  (forall x s w s' w', body x s w = (Ok s', w') -> proj w' = proj w ++ f x) ->
  forall s w s' w',
    for_fold l body s w = (Ok s', w') -> proj w' = proj w ++ flat_map f l.
Proof.
  intros Hbody. induction l as [|x l IH]; intros s w s' w' H.
  - injection H as _ <-. cbn. rewrite app_nil_r. reflexivity.
  - cbn [for_fold] in H. rewrite bind_run in H.
    destruct (body x s w) as [[s1|e] w1] eqn:E; [|discriminate].
    cbn [flat_map]. rewrite (IH _ _ _ _ H), (Hbody _ _ _ _ _ E), <- app_assoc.
    reflexivity.
Qed.

Section DriverExtras.

Variable spawn : list (command * behaviour) -> command -> behaviour.

(** X10. A child that exits nonzero within the timeout makes
    [run_generator] return False.  Unless verbose, its streams are
    captured: the error text is reported with its line ends translated,
    or, when the captured bytes are not text, the decoding error is
    reported instead.  In verbose mode the child writes to the console
    itself and the report of the invoker reads None. *)
Theorem run_generator_capture radius angle diverse out v w rc o e s :
  spawn (calls w) (generator_cmd radius angle diverse out v) = Exits rc o e s ->
  s <= 600 -> rc <> 0 ->
  let r := run_generator spawn radius angle diverse out v w in
  fst r = Ok false /\
  stderr (snd r) =
    stderr w ++
    (if v then [Inherited e; Line [Lit "Error: "; FOpt None]]
     else
       match o, e with
       | Text _, Text err =>
           [Line [Lit "Error: "; FOpt (Some (translate_newlines err))]]
       | Undecodable reason, _ | Text _, Undecodable reason =>
           [Line [Lit "Error generating R"; FInt radius; Lit ": ";
                  FExn (UnicodeDecodeError reason)]]
       end) /\
  (Inherited o ∈ drop (length (stdout w)) (stdout (snd r)) <-> v = true).
Proof.
  intros Hb Hs Hrc r. subst r. unfold run_generator.
  destruct v; run_M; rewrite Hb; run_M.
  all: replace (600 <? s) with false by (symmetry; apply Z.ltb_ge; assumption).
  all: run_M.
  all: try (destruct o as [o|ro]; run_M).
  all: try (destruct e as [e|re]; run_M).
  all: replace (rc =? 0) with false by (symmetry; apply Z.eqb_neq; assumption).
  all: run_M.
  all: split; [reflexivity|]; split; [rewrite <- ?app_assoc; reflexivity|].
  all: rewrite <- ?app_assoc, drop_app_length.
  all: try (split; [reflexivity|]; intros _; do 3 apply list_elem_of_further;
            apply list_elem_of_here).
  all: split; [|discriminate]; intros H.
  all: repeat (apply elem_of_cons in H as [H|H]; [discriminate|]).
  all: apply elem_of_nil in H; contradiction.
Qed.

(** The batch loop, with everything [main] prints around it. *)
Lemma batch_main_full a w :
  dry_run a = false ->
  exists trace w1,
    calls w1 = calls w ++ trace /\ dirs w1 = dirs w /\
    Forall2 (batch_job a diverse_table) RADII trace /\
    main spawn a w =
      (match failed_radii_of (negb (verbose a)) 600 RADII trace with
       | [] => Ok tt
       | _ => Raise (SystemExit 1)
       end,
       {| calls := calls w1; dirs := dirs w1;
          stdout :=
            stdout w1 ++
            [ Line [Lit nl; rule "=" 70];
              Line [Lit "Batch Generation Complete"];
              Line [rule "=" 70];
              Line [Lit "Radii processed: "; FInt (count_ok (negb (verbose a)) 600 trace); Lit "/";
                    FInt 13];
              Line [Lit "Files generated: "; FInt (count_ok (negb (verbose a)) 600 trace * 4); Lit "/";
                    FInt 52];
              Line [Lit "Output directory: "; FResolve (str_path (output_dir a))];
              Line
                match failed_radii_of (negb (verbose a)) 600 RADII trace with
                | [] => [Lit "All files generated successfully! ✓"]
                | failed =>
                    [Lit nl; Lit "Failed radii: ";
                     FJoin ", " (map (fun r => [Lit "R"; FInt r]) failed)]
                end ];
          stderr := stderr w1 |}).
Proof.
  intros Hdry. unfold main.
  rewrite DIVERSE_MAP_table, Hdry. unfold lift. rewrite bind_run.
  do 4 (rewrite bind_run; unfold print at 1, write_stdout at 1).
  rewrite bind_run.
  match goal with
  | |- context [for_fold RADII _ _ ?w0] =>
      destruct (generate_loop spawn a diverse_table RADII 0 [] w0 RADII_mapped)
        as (trace & w1 & Hf & Hcalls & Hdirs & Hjobs);
      rewrite Hf
  end.
  cbn [calls dirs] in Hcalls, Hdirs.
  exists trace, w1. rewrite app_nil_l, Z.add_0_l.
  split; [assumption|]. split; [assumption|]. split; [assumption|].
  destruct (failed_radii_of (negb (verbose a)) 600 RADII trace) as [|f fs]; run_M;
    rewrite <- !app_assoc; reflexivity.
Qed.

Lemma count_ok_failed c timeout radii trace :
  length radii = length trace ->
  count_ok c timeout trace +
    Z.of_nat (length (failed_radii_of c timeout radii trace)) =
  Z.of_nat (length radii).
Proof.
  unfold count_ok, failed_radii_of. revert trace.
  induction radii as [|r radii IH]; intros [|cb trace] Hlen; try discriminate.
  - reflexivity.
  - injection Hlen as Hlen. specialize (IH trace Hlen).
    cbn [zip zip_with List.filter snd]. rewrite length_map in *.
    destruct (run_ok c timeout (snd cb)); cbn [negb length]; lia.
Qed.

(** X11. After a real batch the driver has made 13 calls and prints a
    summary in which the radii processed and the radii listed as failed
    add up to 13, and the files generated are four times the radii
    processed. *)
Theorem batch_main_summary a w :
  dry_run a = false ->
  let r := main spawn a w in
  exists trace before,
    calls (snd r) = calls w ++ trace /\
    length trace = 13%nat /\
    count_ok (negb (verbose a)) 600 trace +
      Z.of_nat (length (failed_radii_of (negb (verbose a)) 600 RADII trace)) = 13 /\
    stdout (snd r) =
      before ++
      [ Line [Lit nl; rule "=" 70];
        Line [Lit "Batch Generation Complete"];
        Line [rule "=" 70];
        Line [Lit "Radii processed: "; FInt (count_ok (negb (verbose a)) 600 trace); Lit "/"; FInt 13];
        Line [Lit "Files generated: "; FInt (count_ok (negb (verbose a)) 600 trace * 4); Lit "/";
              FInt 52];
        Line [Lit "Output directory: "; FResolve (str_path (output_dir a))];
        Line
          match failed_radii_of (negb (verbose a)) 600 RADII trace with
          | [] => [Lit "All files generated successfully! ✓"]
          | failed =>
              [Lit nl; Lit "Failed radii: ";
               FJoin ", " (map (fun r => [Lit "R"; FInt r]) failed)]
          end ].
Proof.
  intros Hdry r. subst r.
  destruct (batch_main_full a w Hdry) as (trace & w1 & Hc & Hd & Hj & ->).
  pose proof (Forall2_length _ _ _ Hj) as Hlen.
  exists trace, (stdout w1). cbn [snd calls stdout].
  split; [assumption|]. split; [symmetry; exact Hlen|].
  split; [exact (count_ok_failed (negb (verbose a)) 600 RADII trace Hlen)|reflexivity].
Qed.

End DriverExtras.

(** [d.get(k)] misses exactly the keys that are not in [d.keys()]. *)
Lemma get_None_iff {V} (d : list (string * V)) k :
  generate_stls.get d k = None <-> k ∉ generate_stls.keys d.
Proof.
  induction d as [|[k' v] d IH]; cbn.
  - split; [intros _ H; apply elem_of_nil in H; contradiction|reflexivity].
  - destruct (String.eqb_spec k' k) as [->|Hne].
    + split; [discriminate|]. intros H. exfalso. apply H, list_elem_of_here.
    + rewrite IH. rewrite not_elem_of_cons.
      split; [intros H; split; [congruence|assumption]|tauto].
Qed.

Section GeneratorExtras.

Import generate_stls.

Variable spawn : list (command * behaviour) -> command -> behaviour.
Variable path_exists : path -> bool.

(** X13. [generate_scad_params] returns for the four keys of
    [CONFIGURATIONS] and raises ValueError, naming the configuration, for
    every other string. *)
Theorem generate_scad_params_known radius angle c diverse :
  ((c ∈ keys CONFIGURATIONS) /\
   (exists params, generate_scad_params radius angle c diverse = Ok params)) \/
  ((c ∉ keys CONFIGURATIONS) /\
   generate_scad_params radius angle c diverse =
     Raise (ValueError (String.append "Unknown configuration: " c))).
Proof.
  destruct (decide (c ∈ keys CONFIGURATIONS)) as [Hc|Hc].
  - left. split; [assumption|]. apply known_config_params. assumption.
  - right. split; [assumption|]. unfold generate_scad_params.
    rewrite (proj2 (get_None_iff CONFIGURATIONS c) Hc). reflexivity.
Qed.

(** X14. For an unknown configuration [generate_stl] raises ValueError
    before it starts anything: the error is not turned into a False
    result, no subprocess is called and nothing is printed. *)
Theorem generate_stl_unknown_config scad output_file radius angle c v diverse w :
  c ∉ keys CONFIGURATIONS ->
  generate_stl spawn scad output_file radius angle c v diverse w =
    (Raise (ValueError (String.append "Unknown configuration: " c)), w).
Proof.
  intros Hc. unfold generate_stl, generate_scad_params.
  rewrite (proj2 (get_None_iff CONFIGURATIONS c) Hc). reflexivity.
Qed.

(** A single job creates no directory. *)
Lemma generate_stl_dirs scad output_file radius angle c v diverse w :
  dirs (snd (generate_stl spawn scad output_file radius angle c v diverse w)) = dirs w.
Proof.
  unfold generate_stl.
  destruct (generate_scad_params radius angle c diverse) as [params|e]; [|reflexivity].
  destruct v; run_M.
  all: match goal with |- context [spawn ?h ?cmd] => destruct (spawn h cmd) as [rc o e s|msg] end.
  all: run_M.
  all: try (destruct (300 <? s); run_M).
  all: try (destruct o as [o|ro]; run_M).
  all: try (destruct e as [e|re]; run_M).
  all: try (destruct (rc =? 0); run_M).
  all: reflexivity.
Qed.

Lemma generate_config_dirs scad out radius angle v diverse c st w :
  dirs (snd (generate_config spawn scad out radius angle v diverse c st w)) = dirs w.
Proof.
  unfold generate_config. destruct st as [sc tc]. rewrite bind_run.
  pose proof (generate_stl_dirs scad (stl_path out radius c) radius angle c v diverse w) as H.
  destruct (generate_stl spawn scad (stl_path out radius c) radius angle c v diverse w)
    as [[[|]|e] w1]; cbn [snd] in *; run_M; assumption.
Qed.

Lemma generate_all_configs_run scad out radius angle v diverse w :
  exists trace w',
    generate_all_configs spawn scad out radius angle v diverse w =
      (Ok (count_ok true 300 trace, 4), w') /\
    0 <= count_ok true 300 trace <= 4 /\
    calls w' = calls w ++ trace /\
    Forall2 (stl_job scad out angle diverse)
      (map (pair radius) (keys CONFIGURATIONS)) trace /\
    dirs w' = dirs w ++ [out].
Proof.
  unfold generate_all_configs. rewrite bind_run. unfold mkdir at 1.
  match goal with
  | |- context [for_fold _ _ _ ?w1] =>
      destruct (config_loop spawn scad out radius angle v diverse
                  (keys CONFIGURATIONS) 0 0 w1 keys_known)
        as (trace & w' & Hf & Hc & Hjobs);
      pose proof (for_fold_preserves (fun w2 => dirs w2 = dirs w ++ [out])
                    (generate_config spawn scad out radius angle v diverse)
                    (keys CONFIGURATIONS)
                    (fun x s w2 Hw2 => eq_trans (generate_config_dirs _ _ _ _ _ _ x s w2) Hw2)
                    (0, 0) w1 eq_refl) as Hd;
      rewrite Hf in Hd |- *
  end.
  cbn [fst snd calls] in *. exists trace, w'.
  pose proof (Forall2_length _ _ _ Hjobs) as Hlen. rewrite length_map in Hlen.
  change (length (keys CONFIGURATIONS)) with 4%nat in Hlen.
  destruct (count_ok_all true 300 trace) as [Hb _].
  assert (Hl4 : len_calls trace = 4) by (unfold len_calls; lia).
  rewrite Hl4 in *. rewrite !Z.add_0_l.
  split; [reflexivity|]. split; [assumption|]. split; [assumption|].
  split; assumption.
Qed.

(** X15. Once the output directory is created, [generate_all_configs]
    calls OpenSCAD once for each of the four configurations in the order
    of [CONFIGURATIONS], whatever the children do, and returns the number
    of successes, between 0 and 4, with a total of 4.  A success is a
    child that exits with code zero within 300 seconds and whose captured
    output is text. *)
Theorem generate_all_configs_counts scad out radius angle v diverse w :
  let r := generate_all_configs spawn scad out radius angle v diverse w in
  exists trace,
    fst r = Ok (count_ok true 300 trace, 4) /\
    0 <= count_ok true 300 trace <= 4 /\
    calls (snd r) = calls w ++ trace /\
    Forall2 (stl_job scad out angle diverse)
      (map (pair radius) (keys CONFIGURATIONS)) trace /\
    dirs (snd r) = dirs w ++ [out].
Proof.
  intros r. subst r.
  destruct (generate_all_configs_run scad out radius angle v diverse w)
    as (trace & w' & -> & H).
  exists trace. cbn [fst snd]. split; [reflexivity|exact H].
Qed.

(** A radius creates the output directory unless one configuration was
    selected. *)
Lemma generate_radius_dirs a radius st w s' w' :
  generate_radius spawn a radius st w = (Ok s', w') ->
  dirs w' = dirs w ++ (fun _ : Z => match truthy (config a) with
                                    | Some _ => []
                                    | None => [output_dir a]
                                    end) radius.
Proof.
  unfold generate_radius. destruct st as [ts tg]. rewrite bind_run.
  set (pre := if verbose a then _ else _).
  assert (Hpre : exists w0, pre w = (Ok tt, w0) /\ dirs w0 = dirs w).
  { unfold pre. destruct (verbose a); run_M; eauto. }
  destruct Hpre as (w0 & -> & Hw0). clearbody pre. cbn beta.
  destruct (truthy (config a)) as [c|].
  - rewrite bind_run.
    pose proof (generate_stl_dirs (scad_file a) (stl_path (output_dir a) radius c) radius
                  (angle a) c (verbose a) (diverse a) w0) as H.
    destruct (generate_stl spawn (scad_file a) (stl_path (output_dir a) radius c) radius
                (angle a) c (verbose a) (diverse a) w0) as [[ok|e] w1]; [|discriminate].
    cbn [snd mret M_ret] in *. intros [= _ <-]. rewrite app_nil_r. congruence.
  - rewrite bind_run.
    destruct (generate_all_configs_run (scad_file a) (output_dir a) radius (angle a)
                (verbose a) (diverse a) w0) as (trace & w1 & -> & _ & _ & _ & Hd).
    cbn [mret M_ret]. intros [= _ <-]. congruence.
Qed.

(** The whole run, with everything [main] prints after the loop. *)
Lemma generate_main_full a w :
  path_exists (scad_file a) = true ->
  exit_code (spawn (calls w) which_openscad) = Some 0 ->
  config_valid a ->
  exists trace w1,
    calls w1 = calls w ++ (which_openscad, spawn (calls w) which_openscad) :: trace /\
    dirs w1 = dirs w ++ flat_map (fun _ : Z => match truthy (config a) with
                                               | Some _ => []
                                               | None => [output_dir a]
                                               end) (radius a) /\
    Forall2 (stl_job (scad_file a) (output_dir a) (angle a) (diverse a))
      (jobs a) trace /\
    main spawn path_exists a w =
      (if forallb (fun cb => job_ok 300 (snd cb)) trace then Ok tt
       else Raise (SystemExit 1),
       {| calls := calls w1; dirs := dirs w1;
          stdout :=
            stdout w1 ++
            [ Line [Lit nl; rule "=" 60];
              Line [Lit "Generation Complete: "; FInt (count_ok true 300 trace); Lit "/";
                    FInt (len_calls trace); Lit " files successfully generated"];
              Line [Lit "Output directory: "; FResolve (str_path (output_dir a))];
              Line [rule "=" 60] ];
          stderr := stderr w1 |}).
Proof.
  intros Hex Hwhich Hv.
  unfold main. rewrite Hex. cbn [negb].
  rewrite bind_run. cbn [mret M_ret].
  rewrite bind_run, (check_openscad_ok spawn w Hwhich).
  rewrite bind_run.
  match goal with
  | |- context [for_fold _ _ _ ?w0] =>
      destruct (radius_loop spawn a (radius a) Hv 0 0 w0) as (trace & w1 & Hf & Hc & Hj);
      pose proof (for_fold_accumulates dirs _ (generate_radius spawn a) (radius a)
                    (generate_radius_dirs a) _ _ _ _ Hf) as Hd;
      rewrite Hf
  end.
  cbn [calls dirs] in Hc, Hd. exists trace, w1.
  split; [rewrite Hc, <- app_assoc; reflexivity|].
  split; [exact Hd|]. split; [exact Hj|].
  destruct (count_ok_all true 300 trace) as [_ Hlt].
  rewrite !Z.add_0_l. run_M. rewrite Hlt.
  destruct (forallb _ trace); cbn [negb]; rewrite <- !app_assoc; reflexivity.
Qed.

Lemma jobs_length a :
  length (jobs a) = (length (radius a) * length (selected a))%nat.
Proof.
  unfold jobs. induction (radius a) as [|r l IH]; [reflexivity|].
  cbn [flat_map length]. rewrite length_app, length_map, IH. lia.
Qed.

Lemma flat_map_nil_const {A B} (l : list A) :
  flat_map (fun _ => @nil B) l = [].
Proof. induction l; [reflexivity|assumption]. Qed.

Lemma flat_map_singleton_const {A B} (l : list A) (x : B) :
  flat_map (fun _ => [x]) l = replicate (length l) x.
Proof. induction l as [|a l IH]; [reflexivity|]. cbn. rewrite IH. reflexivity. Qed.

(** X16. A run of the generator calls [which] once and then one job per
    radius when a configuration was selected, four per radius otherwise;
    the output directory is created once per radius in the second case
    and never in the first. *)
Theorem generate_main_jobs_and_dirs a w :
  path_exists (scad_file a) = true ->
  exit_code (spawn (calls w) which_openscad) = Some 0 ->
  config_valid a ->
  let r := main spawn path_exists a w in
  match config a with
  | Some _ =>
      length (calls (snd r)) = (length (calls w) + 1 + length (radius a))%nat /\
      dirs (snd r) = dirs w
  | None =>
      length (calls (snd r)) = (length (calls w) + 1 + 4 * length (radius a))%nat /\
      dirs (snd r) = dirs w ++ replicate (length (radius a)) (output_dir a)
  end.
Proof.
  intros Hex Hwhich Hv r. subst r.
  destruct (generate_main_full a w Hex Hwhich Hv) as (trace & w1 & Hc & Hd & Hj & ->).
  cbn [snd calls dirs].
  pose proof (Forall2_length _ _ _ Hj) as Hlen. rewrite jobs_length in Hlen.
  unfold selected in Hlen. rewrite Hc, Hd, length_app. cbn [length].
  unfold config_valid in Hv.
  destruct (config a) as [c|].
  - assert (Hc' : truthy (Some c) = Some c).
    { destruct c; [|reflexivity]. cbn in Hv.
      repeat (apply elem_of_cons in Hv as [Hv|Hv]; [discriminate|]).
      apply elem_of_nil in Hv. contradiction. }
    rewrite Hc' in *. rewrite flat_map_nil_const, app_nil_r. cbn [length] in Hlen.
    split; [lia|reflexivity].
  - cbn [truthy] in *. rewrite flat_map_singleton_const.
    change (length (keys CONFIGURATIONS)) with 4%nat in Hlen.
    split; [lia|reflexivity].
Qed.


(** X18. When [which] itself cannot be started, the exception is not
    caught: the generator ends with it after that one call, without a
    message of its own and without running a job. *)
Theorem which_cannot_start a w msg :
  path_exists (scad_file a) = true ->
  spawn (calls w) which_openscad = LaunchFails msg ->
  main spawn path_exists a w =
    (Raise (OSError msg),
     {| calls := calls w ++ [(which_openscad, LaunchFails msg)]; dirs := dirs w;
        stdout := stdout w; stderr := stderr w |}).
Proof.
  intros Hex Hb. unfold main. rewrite Hex. cbn [negb].
  unfold check_openscad. run_M. rewrite Hb. reflexivity.
Qed.

(** X19. When [which] ends but what it wrote is not text, decoding its
    captured output raises; the exception is not caught, so the generator
    ends with it after that one call, whatever the return code of
    [which] was, without a message of its own and without running a
    job. *)
Theorem which_output_not_text a w rc o e s :
  path_exists (scad_file a) = true ->
  spawn (calls w) which_openscad = Exits rc o e s ->
  is_text o && is_text e = false ->
  exists reason,
    (o = Undecodable reason \/ (is_text o = true /\ e = Undecodable reason)) /\
    main spawn path_exists a w =
      (Raise (UnicodeDecodeError reason),
       {| calls := calls w ++ [(which_openscad, Exits rc o e s)]; dirs := dirs w;
          stdout := stdout w; stderr := stderr w |}).
Proof.
  intros Hex Hb Ht. unfold main. rewrite Hex. cbn [negb].
  unfold check_openscad. run_M. rewrite Hb.
  destruct o as [o|ro]; [destruct e as [e|re]; [discriminate|]|].
  - exists re. split; [right; split; reflexivity|reflexivity].
  - exists ro. split; [left; reflexivity|reflexivity].
Qed.

End GeneratorExtras.

(* ===================================================================== *)
(** * Sample runs                                                         *)
(* ===================================================================== *)

Lemma run_generator_capture_witness :
  (crlf_fail (calls empty_world)
     (generator_cmd 24 (Float f22_5) 1800 (Some (Path "out")) false) =
     Exits 2 "" (String.append "render failed" (String char_cr (String char_lf EmptyString))) 3 /\
   3 <= 600 /\ 2 <> 0) /\
  (let r := run_generator crlf_fail 24 (Float f22_5) 1800 (Some (Path "out")) false
              empty_world in
   fst r = Ok false /\
   stderr (snd r) =
     stderr empty_world ++
     [Line [Lit "Error: "; FOpt (Some (String.append "render failed" nl))]] /\
   (Inherited "" ∈ drop (length (stdout empty_world)) (stdout (snd r)) <->
    false = true)).
Proof.
  assert (H1 : crlf_fail (calls empty_world)
                 (generator_cmd 24 (Float f22_5) 1800 (Some (Path "out")) false) =
               Exits 2 "" (String.append "render failed"
                             (String char_cr (String char_lf EmptyString))) 3)
    by reflexivity.
  assert (H2 : 3 <= 600) by lia.
  assert (H3 : 2 <> 0) by lia.
  split; [auto|].
  exact (run_generator_capture crlf_fail 24 (Float f22_5) 1800 (Some (Path "out")) false
           empty_world 2 _ _ 3 H1 H2 H3).
Defined.

Lemma generate_stl_unknown_config_witness :
  ("ballast_only" ∉ generate_stls.keys generate_stls.CONFIGURATIONS) /\
  generate_stls.generate_stl all_fail (Path "curves.scad")
    (generate_stls.stl_path (Path "out") 40 "ballast_only") 40 f22_5 "ballast_only"
    false None empty_world =
  (Raise (ValueError (String.append "Unknown configuration: " "ballast_only")),
   empty_world).
Proof.
  assert (H : "ballast_only" ∉ generate_stls.keys generate_stls.CONFIGURATIONS).
  { intros H. cbn in H.
    repeat (apply elem_of_cons in H as [H|H]; [discriminate|]).
    apply elem_of_nil in H. exact H. }
  split; [exact H|].
  exact (generate_stl_unknown_config all_fail (Path "curves.scad")
           (generate_stls.stl_path (Path "out") 40 "ballast_only") 40 f22_5
           "ballast_only" false None empty_world H).
Defined.

Lemma generate_main_jobs_and_dirs_witness :
  (all_exist (generate_stls.scad_file stl_args) = true /\
   exit_code (third_fails (calls empty_world) generate_stls.which_openscad) = Some 0 /\
   config_valid stl_args) /\
  (let r := generate_stls.main third_fails all_exist stl_args empty_world in
   match generate_stls.config stl_args with
   | Some _ =>
       length (calls (snd r)) =
         (length (calls empty_world) + 1 + length (generate_stls.radius stl_args))%nat /\
       dirs (snd r) = dirs empty_world
   | None =>
       length (calls (snd r)) =
         (length (calls empty_world) + 1 +
          4 * length (generate_stls.radius stl_args))%nat /\
       dirs (snd r) =
         dirs empty_world ++
         replicate (length (generate_stls.radius stl_args))
           (generate_stls.output_dir stl_args)
   end).
Proof.
  assert (H1 : all_exist (generate_stls.scad_file stl_args) = true) by reflexivity.
  assert (H2 : exit_code (third_fails (calls empty_world)
                            generate_stls.which_openscad) = Some 0) by reflexivity.
  assert (H3 : config_valid stl_args) by exact I.
  split; [auto|].
  exact (generate_main_jobs_and_dirs third_fails all_exist stl_args empty_world H1 H2 H3).
Defined.

Lemma which_cannot_start_witness :
  (all_exist (generate_stls.scad_file stl_args) = true /\
   no_launch (calls empty_world) generate_stls.which_openscad =
     LaunchFails "No such file or directory") /\
  generate_stls.main no_launch all_exist stl_args empty_world =
    (Raise (OSError "No such file or directory"),
     {| calls := calls empty_world ++
                 [(generate_stls.which_openscad, LaunchFails "No such file or directory")];
        dirs := dirs empty_world;
        stdout := stdout empty_world; stderr := stderr empty_world |}).
Proof.
  assert (H1 : all_exist (generate_stls.scad_file stl_args) = true) by reflexivity.
  assert (H2 : no_launch (calls empty_world) generate_stls.which_openscad =
               LaunchFails "No such file or directory") by reflexivity.
  split; [auto|].
  exact (which_cannot_start no_launch all_exist stl_args empty_world _ H1 H2).
Defined.

Lemma batch_main_summary_witness :
  dry_run (batch_args false) = false /\
  (let r := main third_fails (batch_args false) empty_world in
   exists trace before,
     calls (snd r) = calls empty_world ++ trace /\
     length trace = 13%nat /\
     count_ok (negb (verbose (batch_args false))) 600 trace +
       Z.of_nat (length (failed_radii_of (negb (verbose (batch_args false))) 600 RADII trace)) = 13 /\
     stdout (snd r) =
       before ++
       [ Line [Lit nl; rule "=" 70];
         Line [Lit "Batch Generation Complete"];
         Line [rule "=" 70];
         Line [Lit "Radii processed: "; FInt (count_ok (negb (verbose (batch_args false))) 600 trace); Lit "/"; FInt 13];
         Line [Lit "Files generated: "; FInt (count_ok (negb (verbose (batch_args false))) 600 trace * 4); Lit "/";
               FInt 52];
         Line [Lit "Output directory: ";
               FResolve (str_path (output_dir (batch_args false)))];
         Line
           match failed_radii_of (negb (verbose (batch_args false))) 600 RADII trace with
           | [] => [Lit "All files generated successfully! ✓"]
           | failed =>
               [Lit nl; Lit "Failed radii: ";
                FJoin ", " (map (fun r => [Lit "R"; FInt r]) failed)]
           end ]).
Proof.
  assert (H : dry_run (batch_args false) = false) by reflexivity.
  split; [exact H|].
  exact (batch_main_summary third_fails (batch_args false) empty_world H).
Defined.


Lemma which_output_not_text_witness :
  (all_exist (generate_stls.scad_file stl_args) = true /\
   garbled (calls empty_world) generate_stls.which_openscad =
     Exits 0 (Undecodable "'utf-8' codec can't decode byte 0xff in position 0")
       (String.append "done" (String char_cr (String char_lf EmptyString))) 1 /\
   is_text (Undecodable "'utf-8' codec can't decode byte 0xff in position 0") &&
   is_text (Text (String.append "done" (String char_cr (String char_lf EmptyString)))) =
     false) /\
  exit_status (fst (generate_stls.main garbled all_exist stl_args empty_world)) = 1 /\
  calls (snd (generate_stls.main garbled all_exist stl_args empty_world)) =
    [(generate_stls.which_openscad,
      garbled (calls empty_world) generate_stls.which_openscad)].
Proof.
  assert (H1 : all_exist (generate_stls.scad_file stl_args) = true) by reflexivity.
  assert (H2 : garbled (calls empty_world) generate_stls.which_openscad =
     Exits 0 (Undecodable "'utf-8' codec can't decode byte 0xff in position 0")
       (String.append "done" (String char_cr (String char_lf EmptyString))) 1)
    by reflexivity.
  assert (H3 : is_text (Undecodable "'utf-8' codec can't decode byte 0xff in position 0") &&
               is_text (Text (String.append "done"
                                (String char_cr (String char_lf EmptyString)))) = false)
    by reflexivity.
  split; [auto|].
  destruct (which_output_not_text garbled all_exist stl_args empty_world 0 _ _ 1 H1 H2 H3)
    as (reason & _ & ->).
  split; reflexivity.
Defined.
